(** * GetStock 1.5: a shallow embedding of [server.py] and [client.py]

    Python values are modelled the way the two scripts use them:
    - [bytes] is a list of integers, each meant to lie in [0, 256);
    - [str] is a list of Unicode code points;
    - the server's [stock_dict] is a finite map and [reg_users] a list;
    - an exception that nothing in the script catches is a value of [exn].

    The character tables behind [str.lower] and [str.isalnum] belong to the
    Python runtime, not to the repository: the server is embedded inside a
    section that takes them as variables, and [ascii_lower] and
    [ascii_isalnum_cp] give the instance used to run the code on ASCII
    text. *)

From Stdlib Require Import ZArith Lia Ascii String.
From stdpp Require Import base option list gmap.

Local Open Scope Z_scope.

(** ** Text and bytes *)

Abbreviation str := (list Z) (only parsing).
Abbreviation bytes := (list Z) (only parsing).

(** A literal of the source, as the list of its code points. *)
Definition py (s : string) : str :=
  map (fun a => Z.of_N (N_of_ascii a)) (list_ascii_of_string s).

Definition COMMA : Z := 44.
Definition SEMI : Z := 59.
Definition NEWLINE : Z := 10.

(** The exceptions that can leave the two scripts. *)
Inductive exn :=
  | UnicodeDecodeError
  | UnicodeEncodeError
  | NameError
  | KeyError
  | AttributeError.

Inductive result (A : Type) :=
  | Ok (a : A)
  | Err (e : exn).
Arguments Ok {A} a.
Arguments Err {A} e.

Definition rbind {A B} (r : result A) (k : A -> result B) : result B :=
  match r with
  | Ok a => k a
  | Err e => Err e
  end.

Notation "'try' x <- c ; k" := (rbind c (fun x => k))
  (at level 10, x name, c at level 100, k at level 200).

(** *** UTF-8, as [bytes(s, "utf-8")] and [raw.decode("utf-8")] *)

Definition is_surrogate (c : Z) : bool := (0xD800 <=? c) && (c <=? 0xDFFF).

Definition is_cont (b : Z) : bool := (0x80 <=? b) && (b <=? 0xBF).

Definition utf8_encode_cp (c : Z) : option bytes :=
  if (0 <=? c) && (c <? 0x80) then Some [c]
  else if (0x80 <=? c) && (c <? 0x800) then
    Some [0xC0 + c / 64; 0x80 + c mod 64]
  else if (0x800 <=? c) && (c <? 0x10000) then
    if is_surrogate c then None
    else Some [0xE0 + c / 4096; 0x80 + (c / 64) mod 64; 0x80 + c mod 64]
  else if (0x10000 <=? c) && (c <? 0x110000) then
    Some [0xF0 + c / 262144; 0x80 + (c / 4096) mod 64;
          0x80 + (c / 64) mod 64; 0x80 + c mod 64]
  else None.

Fixpoint utf8_encode (s : str) : option bytes :=
  match s with
  | [] => Some []
  | c :: s' =>
      match utf8_encode_cp c, utf8_encode s' with
      | Some bs, Some r => Some (bs ++ r)
      | _, _ => None
      end
  end.

Definition cp2 (b1 b2 : Z) : Z := (b1 - 0xC0) * 64 + (b2 - 0x80).
Definition cp3 (b1 b2 b3 : Z) : Z :=
  (b1 - 0xE0) * 4096 + (b2 - 0x80) * 64 + (b3 - 0x80).
Definition cp4 (b1 b2 b3 b4 : Z) : Z :=
  (b1 - 0xF0) * 262144 + (b2 - 0x80) * 4096 + (b3 - 0x80) * 64 + (b4 - 0x80).

Definition ok2 (b1 b2 : Z) : bool :=
  (0xC2 <=? b1) && (b1 <=? 0xDF) && is_cont b2.

Definition ok3 (b1 b2 b3 : Z) : bool :=
  (0xE0 <=? b1) && (b1 <=? 0xEF) && is_cont b2 && is_cont b3
  && (0x800 <=? cp3 b1 b2 b3) && negb (is_surrogate (cp3 b1 b2 b3)).

Definition ok4 (b1 b2 b3 b4 : Z) : bool :=
  (0xF0 <=? b1) && (b1 <=? 0xF4) && is_cont b2 && is_cont b3 && is_cont b4
  && (0x10000 <=? cp4 b1 b2 b3 b4) && (cp4 b1 b2 b3 b4 <? 0x110000).

(** The strict decoder: shortest form only, no surrogates, nothing above
    U+10FFFF; [None] stands for [UnicodeDecodeError]. *)
Fixpoint utf8_decode (bs : bytes) : option str :=
  match bs with
  | [] => Some []
  | b1 :: r1 =>
      if (0 <=? b1) && (b1 <? 0x80) then cons b1 <$> utf8_decode r1
      else
        match r1 with
        | [] => None
        | b2 :: r2 =>
            if ok2 b1 b2 then cons (cp2 b1 b2) <$> utf8_decode r2
            else
              match r2 with
              | [] => None
              | b3 :: r3 =>
                  if ok3 b1 b2 b3 then cons (cp3 b1 b2 b3) <$> utf8_decode r3
                  else
                    match r3 with
                    | [] => None
                    | b4 :: r4 =>
                        if ok4 b1 b2 b3 b4
                        then cons (cp4 b1 b2 b3 b4) <$> utf8_decode r4
                        else None
                    end
              end
        end
  end.

Definition to_bytes (s : str) : result bytes :=
  match utf8_encode s with
  | Some b => Ok b
  | None => Err UnicodeEncodeError
  end.

Definition decode (raw : bytes) : result str :=
  match utf8_decode raw with
  | Some s => Ok s
  | None => Err UnicodeDecodeError
  end.

(** A string [bytes(s, "utf-8")] accepts. *)
Definition encodable (s : str) : Prop := is_Some (utf8_encode s).

(** *** [str.split], [str.join], slices and [endswith] *)

Fixpoint split (sep : Z) (s : str) : list str :=
  match s with
  | [] => [[]]
  | c :: s' =>
      if c =? sep then [] :: split sep s'
      else
        match split sep s' with
        | f :: fs => (c :: f) :: fs
        | [] => [[c]]
        end
  end.

Fixpoint join (sep : str) (l : list str) : str :=
  match l with
  | [] => []
  | [x] => x
  | x :: xs => x ++ sep ++ join sep xs
  end.

(** [s[0:-1]] and [s[:-1]]: everything but the last character; the empty
    string stays empty. *)
Definition strip_last (s : str) : str := removelast s.

Definition endswith (s : str) (c : Z) : bool :=
  match last s with
  | Some d => d =? c
  | None => false
  end.

(** [l[i]] for an index known to exist in the source. *)
Definition item (l : list str) (i : nat) : str := nth i l [].

(** A command or a field that holds neither separator of the protocol. *)
Definition sep_free (s : str) : Prop := (COMMA ∉ s) /\ (SEMI ∉ s).

Definition str_eqb (a b : str) : bool := bool_decide (a = b).

Definition str_in (a : str) (l : list str) : bool := bool_decide (a ∈ l).

(** ** The server, [server.py] *)

Module Server.

Definition MAX_SIZE : nat := 4096.
Definition MAX_NAME : nat := 32.
Definition QUOTE_FIELDS : nat := 3.
Definition REG_FIELDS : nat := 2.
Definition BAD_STOCK : str := Eval cbv in py "-1".

Definition REG : str := Eval cbv in py "REG".
Definition UNR : str := Eval cbv in py "UNR".
Definition QUO : str := Eval cbv in py "QUO".
Definition ROK : str := Eval cbv in py "ROK".
Definition INC : str := Eval cbv in py "INC".
Definition INP : str := Eval cbv in py "INP".
Definition UAE : str := Eval cbv in py "UAE".
Definition INU : str := Eval cbv in py "INU".

(** The two module-level globals the serve loop works on. *)
Record state := State {
  stock_dict : gmap (list Z) (list Z);
  reg_users : list (list Z)
}.

(** The [for name in stock_csv.split(",")] loop of [buildPacket], with
    [price_list] as the accumulator. *)
Fixpoint price_loop (d : gmap (list Z) (list Z)) (names : list str)
    (price_list : list str) : list str :=
  match names with
  | [] => price_list
  | name :: rest =>
      match d !! name with
      | Some price => price_loop d rest (price_list ++ [price])
      | None => price_loop d rest (price_list ++ [BAD_STOCK])
      end
  end.

Definition buildPacket (d : gmap (list Z) (list Z)) (command : str)
    (stock_csv : option str) : result bytes :=
  match stock_csv with
  | Some csv =>
      if str_eqb command QUO then
        let price_list := price_loop d (split COMMA csv) [] in
        let price_csv := join [COMMA] price_list in
        to_bytes (ROK ++ [COMMA] ++ price_csv ++ [SEMI])
      else to_bytes (command ++ [SEMI])
  | None => to_bytes (command ++ [SEMI])
  end.

(** [reg_users.remove(u)]: the first occurrence goes. *)
Fixpoint list_remove (u : str) (l : list str) : list str :=
  match l with
  | [] => []
  | x :: l' => if str_eqb x u then l' else x :: list_remove u l'
  end.

(** *** Regular expressions, for [re.match] on the ticker list *)

Inductive re :=
  | Empty
  | Eps
  | Range (lo hi : Z)
  | Chr (c : Z)
  | Seq (r1 r2 : re)
  | Alt (r1 r2 : re)
  | Star (r : re).

Fixpoint nullable (r : re) : bool :=
  match r with
  | Empty => false
  | Eps => true
  | Range _ _ => false
  | Chr _ => false
  | Seq r1 r2 => nullable r1 && nullable r2
  | Alt r1 r2 => nullable r1 || nullable r2
  | Star _ => true
  end.

Fixpoint deriv (c : Z) (r : re) : re :=
  match r with
  | Empty => Empty
  | Eps => Empty
  | Range lo hi => if (lo <=? c) && (c <=? hi) then Eps else Empty
  | Chr d => if c =? d then Eps else Empty
  | Seq r1 r2 =>
      if nullable r1 then Alt (Seq (deriv c r1) r2) (deriv c r2)
      else Seq (deriv c r1) r2
  | Alt r1 r2 => Alt (deriv c r1) (deriv c r2)
  | Star r1 => Seq (deriv c r1) (Star r1)
  end.

Fixpoint fullmatch (r : re) (s : str) : bool :=
  match s with
  | [] => nullable r
  | c :: s' => fullmatch (deriv c r) s'
  end.

(** The language of a pattern, to say what [fullmatch] decides. *)
Inductive lang : re -> str -> Prop :=
  | L_Eps : lang Eps []
  | L_Range lo hi c : lo <= c <= hi -> lang (Range lo hi) [c]
  | L_Chr c : lang (Chr c) [c]
  | L_Seq r1 r2 s1 s2 :
      lang r1 s1 -> lang r2 s2 -> lang (Seq r1 r2) (s1 ++ s2)
  | L_AltL r1 r2 s : lang r1 s -> lang (Alt r1 r2) s
  | L_AltR r1 r2 s : lang r2 s -> lang (Alt r1 r2) s
  | L_Star0 r : lang (Star r) []
  | L_StarS r s1 s2 :
      lang r s1 -> lang (Star r) s2 -> lang (Star r) (s1 ++ s2).

(** [r{2,5}] *)
Definition rep_2_5 (r : re) : re :=
  Seq r (Seq r (Alt Eps (Seq r (Alt Eps (Seq r (Alt Eps r)))))).

Definition upper : re := Range 65 90.

(** [([A-Z]{2,5},)*[A-Z]{2,5}] *)
Definition quotes_re : re :=
  Seq (Star (Seq (rep_2_5 upper) (Chr COMMA))) (rep_2_5 upper).

(** [re.match(r"^...$", s)]: the pattern is anchored at both ends, and [$]
    also matches just before a newline that ends the string. *)
Definition re_match_anchored (r : re) (s : str) : bool :=
  fullmatch r s || (endswith s NEWLINE && fullmatch r (strip_last s)).

Section Handler.

(** [c.isalnum()] for one character, and [s.lower()]. *)
Variable isalnum_cp : Z -> bool.
Variable lower : str -> str.

(** [s.isalnum()]: at least one character, all of them alphanumeric. *)
Definition isalnum (s : str) : bool :=
  match s with
  | [] => false
  | _ => forallb isalnum_cp s
  end.

(** The body of the serve loop between the decode and the send, lines
    130 to 190: the value of [send_pkt] and the globals afterwards. *)
Definition handle (st : state) (data : str)
    : result (option bytes * state) :=
  let d := stock_dict st in
  let recv_pkt_flds := split COMMA data in
  if negb (str_in (item recv_pkt_flds 0) [REG; UNR; QUO]) then
    try p <- buildPacket d INC None; Ok (Some p, st)
  else if (length recv_pkt_flds =? REG_FIELDS)%nat
          && str_in (item recv_pkt_flds 0) [REG; UNR]
          && endswith (item recv_pkt_flds 1) SEMI then
    let given_command := item recv_pkt_flds 0 in
    let strip_semicolon := strip_last (item recv_pkt_flds 1) in
    let given_uname := lower strip_semicolon in
    if (MAX_SIZE <? length given_uname)%nat || negb (isalnum given_uname) then
      try p <- buildPacket d INU None; Ok (Some p, st)
    else if str_eqb given_command REG
            && negb (str_in given_uname (reg_users st)) then
      let st' := State d (reg_users st ++ [given_uname]) in
      try p <- buildPacket d ROK None; Ok (Some p, st')
    else if str_eqb given_command REG && str_in given_uname (reg_users st) then
      try p <- buildPacket d UAE None; Ok (Some p, st)
    else if str_eqb given_command UNR
            && negb (str_in given_uname (reg_users st)) then
      try p <- buildPacket d UNR None; Ok (Some p, st)
    else if str_eqb given_command UNR && str_in given_uname (reg_users st) then
      let st' := State d (list_remove given_uname (reg_users st)) in
      try p <- buildPacket d ROK None; Ok (Some p, st')
    else Ok (None, st)
  else if (QUOTE_FIELDS <=? length recv_pkt_flds)%nat
          && str_eqb (item recv_pkt_flds 0) QUO
          && endswith data SEMI then
    let given_uname := lower (item recv_pkt_flds 1) in
    if (MAX_NAME <? length given_uname)%nat || negb (isalnum given_uname) then
      try p <- buildPacket d INU None; Ok (Some p, st)
    else if negb (str_in given_uname (reg_users st)) then
      try p <- buildPacket d UNR None; Ok (Some p, st)
    else
      let w_semicolon := join [COMMA] (drop 2 recv_pkt_flds) in
      let quotes_csv := strip_last w_semicolon in
      if re_match_anchored quotes_re quotes_csv then
        try p <- buildPacket d QUO (Some quotes_csv); Ok (Some p, st)
      else
        try p <- buildPacket d INP None; Ok (Some p, st)
  else
    try p <- buildPacket d INP None; Ok (Some p, st).

(** What one turn of the serve loop does with the bytes [recvfrom]
    returned: the packet it sends and the globals it leaves, or the
    exception that ends the loop. Nothing in the loop catches an exception
    other than a socket error, and [sys] is not a bound name in
    [server.py], so the [send_pkt is None] exit is a [NameError]. The
    socket calls themselves are taken to succeed: [recvfrom] has returned
    [raw_data], and [sendto] delivers the packet. *)
Inductive outcome :=
  | Sent (pkt : bytes) (st : state)
  | Raised (e : exn).

Definition serve_once (st : state) (raw_data : bytes) : outcome :=
  match decode raw_data with
  | Err e => Raised e
  | Ok data =>
      match handle st data with
      | Err e => Raised e
      | Ok (None, _) => Raised NameError
      | Ok (Some send_pkt, st') => Sent send_pkt st'
      end
  end.

(** The serve loop over the datagrams received so far: the packets sent,
    and either the globals (the loop is waiting for the next datagram) or
    the exception that stopped the server. *)
Fixpoint serve (st : state) (inbox : list bytes)
    : list bytes * result state :=
  match inbox with
  | [] => ([], Ok st)
  | raw_data :: rest =>
      match serve_once st raw_data with
      | Raised e => ([], Err e)
      | Sent pkt st' =>
          let '(out, fin) := serve st' rest in (pkt :: out, fin)
      end
  end.

(** A username as the protocol wants it: already in lower case,
    alphanumeric, and no longer than [MAX_NAME]. *)
Definition valid_username (u : str) : Prop :=
  lower u = u /\ isalnum u = true /\ (length u <= MAX_NAME)%nat.

(** What [reg_users] is expected to look like: no name twice, every name
    in lower case. *)
Definition store_ok (users : list str) : Prop :=
  NoDup users /\ Forall (fun u => lower u = u) users.

End Handler.

(** A ticker: two to five letters from [A] to [Z]. *)
Definition is_ticker (t : str) : Prop :=
  (2 <= length t <= 5)%nat /\ Forall (fun c => 65 <= c <= 90) t.

(** The price the server reports for a ticker. *)
Definition price_of (d : gmap (list Z) (list Z)) (t : str) : str :=
  default BAD_STOCK (d !! t).

(** A catalog whose prices can all be put into a packet, as those read
    from the stock file can. *)
Definition catalog_encodable (d : gmap (list Z) (list Z)) : Prop :=
  forall t p, d !! t = Some p -> encodable p.

(** The tables of the runtime, restricted to ASCII: on text that is
    ASCII only, [str.lower] and [str.isalnum] are these. *)
Definition ascii_isalnum_cp (c : Z) : bool :=
  ((48 <=? c) && (c <=? 57)) || ((65 <=? c) && (c <=? 90))
  || ((97 <=? c) && (c <=? 122)).

Definition ascii_lower (s : str) : str :=
  map (fun c => if (65 <=? c) && (c <=? 90) then c + 32 else c) s.

(** The catalog of the example in the header of [server.py], first two
    lines. *)
Definition example_catalog : gmap (list Z) (list Z) :=
  list_to_map [ (py "IBM", py "121.11"); (py "FB", py "23.22") ].

End Server.

(** ** The client, [client.py] *)

Module Client.

Definition MAX_SIZE : nat := 4096.
Definition COM_FIELDS : nat := 1.
Definition ATTEMPT_LIMIT : nat := 3.
Definition BAD_STOCK : str := Eval cbv in py "-1".

Definition REG : str := Eval cbv in py "REG".
Definition UNR : str := Eval cbv in py "UNR".
Definition QUO : str := Eval cbv in py "QUO".

(** ["{0},{1};".format(cmd, u_name)] and
    ["{0},{1},{2};".format(cmd, u_name, stocks_csv)] *)
Definition fmt2 (cmd u_name : str) : str :=
  cmd ++ [COMMA] ++ u_name ++ [SEMI].
Definition fmt3 (cmd u_name stocks_csv : str) : str :=
  cmd ++ [COMMA] ++ u_name ++ [COMMA] ++ stocks_csv ++ [SEMI].

(** [stocks_csv is not None], and the truth value of [stocks_csv]: [None]
    and the empty string are false. *)
Definition is_not_None (o : option str) : bool :=
  match o with
  | Some _ => true
  | None => false
  end.

Definition truthy (o : option str) : bool :=
  match o with
  | Some (_ :: _) => true
  | _ => false
  end.

Definition buildPacket (cmd u_name : str) (stocks_csv : option str)
    : result bytes :=
  if str_in cmd [REG; UNR] then to_bytes (fmt2 cmd u_name)
  else if str_eqb cmd QUO && is_not_None stocks_csv then
    to_bytes (fmt3 cmd u_name (default [] stocks_csv))
  else if truthy stocks_csv then
    to_bytes (fmt3 cmd u_name (default [] stocks_csv))
  else to_bytes (fmt2 cmd u_name).


(** The dictionary of user-readable response codes. *)
Definition response_codes : gmap (list Z) (list Z) :=
  list_to_map
    [ (py "ROK", py "Request OK");
      (py "INC", py "Invalid command");
      (py "INP", py "Invalid parameter");
      (py "UAE", py "Username already exists");
      (py "UNR", py "Username not registered");
      (py "INU", py "Invalid username") ].

Definition known_codes : list str :=
  [py "ROK"; py "INC"; py "INP"; py "UAE"; py "UNR"; py "INU"].

(** Lines 154 to 158: the fields of a reply. *)
Definition reply_fields (raw_data : bytes) : result (list str) :=
  try response <- decode raw_data;
  let response := split SEMI response in
  Ok (split COMMA (item response 0)).

(** One line of the price table. *)
Definition show_quote (stock_quote : str * str) : str :=
  if str_eqb (stock_quote.2) BAD_STOCK
  then stock_quote.1 ++ py " : invalid stock"
  else stock_quote.1 ++ py " : " ++ stock_quote.2.

(** The body of the [try] after [recvfrom] has returned, lines 154 to 171:
    the lines printed, and the exception raised if there is one. *)
Definition handle_reply (quote_csv : option str) (raw_data : bytes)
    : list str * option exn :=
  match reply_fields raw_data with
  | Err e => ([], Some e)
  | Ok response_fields =>
      match response_codes !! item response_fields 0 with
      | None => ([], Some KeyError)
      | Some meaning =>
          if (1 <? length response_fields)%nat then
            match quote_csv with
            | None => ([meaning], Some AttributeError)
            | Some csv =>
                let price_table :=
                  zip (split COMMA csv) (drop COM_FIELDS response_fields) in
                (meaning :: map show_quote price_table, None)
            end
          else ([meaning], None)
      end
  end.

(** What [recvfrom] does after a send. *)
Inductive recv :=
  | Reply (raw_data : bytes)
  | Timeout
  | SocketError (s_err : str).

(** What the client does that can be seen from outside. *)
Inductive event :=
  | Send (pkt : bytes)
  | Print (line : str).

(** How the retry loop ends: it falls through to the next prompt, it
    exits through [sys.exit], or an exception nothing catches leaves it. *)
Inductive ending :=
  | Done
  | SysExit (code : Z)
  | Uncaught (e : exn).

Section Retry.

Variable out_pkt : bytes.
Variable quote_csv : option str.
(** [net n] is what the [recvfrom] after the send number [n] (from 0)
    runs into. *)
Variable net : nat -> recv.

(** The [while attempts < ATTEMPT_LIMIT] loop, lines 147 to 184, entered
    with the given value of [attempts]. [None] means the fuel ran out
    before the loop ended. *)
Fixpoint retry_loop (fuel : nat) (attempts : nat)
    : option (list event * ending) :=
  match fuel with
  | O => None
  | S fuel' =>
      if (attempts <? ATTEMPT_LIMIT)%nat then
        let attempts' := (attempts + 1)%nat in
        match net attempts with
        | Reply raw_data =>
            let '(lines, e) := handle_reply quote_csv raw_data in
            Some (Send out_pkt :: map Print lines,
                  match e with
                  | None => Done
                  | Some x => Uncaught x
                  end)
        | Timeout =>
            let line :=
              if (attempts' <? ATTEMPT_LIMIT)%nat
              then py "timeout -- retry..."
              else py "timeout limit exceeded" in
            match retry_loop fuel' attempts' with
            | Some (evs, e) => Some (Send out_pkt :: Print line :: evs, e)
            | None => None
            end
        | SocketError s_err =>
            Some ([Send out_pkt; Print (py "Socket error!" ++ [NEWLINE; 32] ++ s_err)],
                  SysExit (-1))
        end
      else Some ([], Done)
  end.

(** One user action: [attempts] starts at 0. *)
Definition action (fuel : nat) : option (list event * ending) :=
  retry_loop fuel 0%nat.

End Retry.

Definition sends (evs : list event) : list bytes :=
  omap (fun e => match e with Send p => Some p | Print _ => None end) evs.

Definition prints (evs : list event) : list str :=
  omap (fun e => match e with Print l => Some l | Send _ => None end) evs.

End Client.

(** ** Loading the catalog, [server.py] lines 85 to 104 *)

Module Loader.

(** What [open(stockfile_name)] finds: no file, a file that may not be
    read, or the lines of the file, each with its line end. *)
Inductive file :=
  | Missing
  | Forbidden
  | Content (lines : list (list Z)).

(** The longest prefix whose characters all pass [p], and the rest. *)
Fixpoint span (p : Z -> bool) (s : str) : str * str :=
  match s with
  | [] => ([], [])
  | c :: s' =>
      if p c then let '(a, b) := span p s' in (c :: a, b)
      else ([], s)
  end.

Definition is_upper (c : Z) : bool := (65 <=? c) && (c <=? 90).

Definition SPACE : Z := 32.
Definition DOT : Z := 46.

Section Digits.

(** [\d] of the [re] module, for one character. *)
Variable isdigit_cp : Z -> bool.

(** [re.match(r"([A-Z]+) (\d+\.\d\d)", line)]: the two groups, or [None].
    Both [+] are greedy, and a shorter run never helps: the character
    after a shorter run of letters is a letter, not the space, and the
    character after a shorter run of digits is a digit, not the dot. The
    match is anchored at the start of the line only. *)
Definition match_stock_line (line : str) : option (str * str) :=
  let '(name, after_name) := span is_upper line in
  match name, after_name with
  | _ :: _, sp :: after_space =>
      if sp =? SPACE then
        let '(whole, after_whole) := span isdigit_cp after_space in
        match whole, after_whole with
        | _ :: _, dot :: d1 :: d2 :: _ =>
            if (dot =? DOT) && isdigit_cp d1 && isdigit_cp d2
            then Some (name, whole ++ [dot; d1; d2])
            else None
        | _, _ => None
        end
      else None
  | _, _ => None
  end.

(** The [for line in f] loop, with [stock_dict] as it stands. *)
Fixpoint load_lines (lines : list str) (stock_dict : gmap (list Z) (list Z))
    : gmap (list Z) (list Z) :=
  match lines with
  | [] => stock_dict
  | line :: rest =>
      match match_stock_line line with
      | Some (name, price) => load_lines rest (<[name := price]> stock_dict)
      | None => load_lines rest stock_dict
      end
  end.

(** [loadStockDict]: the dictionary, or [None] when the file is missing
    or may not be read. *)
Definition loadStockDict (f : file) : option (gmap (list Z) (list Z)) :=
  match f with
  | Content lines => Some (load_lines lines ∅)
  | Missing | Forbidden => None
  end.

(** Lines 102 to 107: the server leaves with [exit(-1)] when
    [not stock_dict], which is so for [None] and for the empty dictionary;
    otherwise it goes on with that catalog and no registered user. *)
Inductive startup :=
  | Exits (code : Z)
  | Serves (st : Server.state).

Definition start (f : file) : startup :=
  match loadStockDict f with
  | None => Exits (-1)
  | Some stock_dict =>
      if decide (stock_dict = ∅) then Exits (-1)
      else Serves (Server.State stock_dict [])
  end.

(** The shapes of the two groups. *)
Definition name_shape (name : str) : Prop :=
  name <> [] /\ Forall (fun c => 65 <= c <= 90) name.

Definition price_shape (price : str) : Prop :=
  exists whole d1 d2,
    price = whole ++ [DOT; d1; d2]
    /\ whole <> []
    /\ Forall (fun c => isdigit_cp c = true) (whole ++ [d1; d2]).

End Digits.

(** [\d] on ASCII text. *)
Definition ascii_isdigit_cp (c : Z) : bool := (48 <=? c) && (c <=? 57).

(** A stock file to run the loader on. *)
Definition example_stock_file : file :=
  Content
    [py "IBM 121.11" ++ [NEWLINE]; py "# a comment" ++ [NEWLINE];
     py "FB 23.22" ++ [NEWLINE]; py "IBM 99.90 old" ++ [NEWLINE];
     py "nflx 11.99" ++ [NEWLINE]].

End Loader.

(** ** The menu of the client, [client.py] lines 102 to 145 *)

Module Session.

(** [a in b] for two strings: [a] occurs in [b]. *)
Fixpoint is_prefix (a b : str) : bool :=
  match a, b with
  | [], _ => true
  | x :: a', y :: b' => (x =? y) && is_prefix a' b'
  | _ :: _, [] => false
  end.

Fixpoint occurs_in (a b : str) : bool :=
  is_prefix a b
  || match b with
     | [] => false
     | _ :: b' => occurs_in a b'
     end.

Definition nonempty (s : str) : bool :=
  match s with
  | [] => false
  | _ :: _ => true
  end.

(** What can end the client besides the exceptions of the retry loop. *)
Inductive failure :=
  | EOFError
  | TypeError
  | Packet (e : exn).

(** The menu part of one turn of the outer loop: [break]; or the loop
    goes on to the retry loop with these values of [out_pkt] and
    [quote_csv] and the input that is left; or an exception. *)
Inductive chosen :=
  | Leave
  | Proceed (out_pkt : option (list Z)) (quote_csv : option (list Z))
            (rest : list (list Z))
  | Fails (e : failure).

(** The value a [buildPacket] call leaves in [out_pkt]. *)
Definition built (r : result bytes) (quote_csv : option str)
    (rest : list str) : chosen :=
  match r with
  | Ok pkt => Proceed (Some pkt) quote_csv rest
  | Err e => Fails (Packet e)
  end.

(** Lines 104 to 144. [inputs] are the lines the user types, one for each
    [input(...)] call; running out of them is an end of file. [out_pkt] is
    the value left by the turns before, [None] at first. *)
Definition menu (debug_mode : bool) (out_pkt : option bytes)
    (inputs : list str) : chosen :=
  match inputs with
  | [] => Fails EOFError
  | choice :: inputs =>
      if occurs_in choice (py "rR") && nonempty choice then
        match inputs with
        | given_username :: rest =>
            built (Client.buildPacket (py "REG") given_username None) None rest
        | [] => Fails EOFError
        end
      else if occurs_in choice (py "uU") && nonempty choice then
        match inputs with
        | given_username :: rest =>
            built (Client.buildPacket (py "UNR") given_username None) None rest
        | [] => Fails EOFError
        end
      else if occurs_in choice (py "qQ") && nonempty choice then
        match inputs with
        | given_username :: quote_csv :: rest =>
            built (Client.buildPacket (py "QUO") given_username
                     (Some quote_csv))
                  (Some quote_csv) rest
        | _ => Fails EOFError
        end
      else if occurs_in choice (py "dD") && debug_mode && nonempty choice then
        match inputs with
        | command :: username :: quote_csv :: rest =>
            if negb (Client.truthy (Some quote_csv)) then
              built (Client.buildPacket command username None)
                    (Some quote_csv) rest
            else
              built (Client.buildPacket command username (Some quote_csv))
                    (Some quote_csv) rest
        | _ => Fails EOFError
        end
      else if occurs_in choice (py "eE") || negb (nonempty choice) then Leave
      else Proceed out_pkt None inputs
  end.

(** The line printed after a timeout that is not the last. *)
Definition retry_line : Client.event :=
  Client.Print (py "timeout -- retry...").

(** How one turn of the outer loop ends. *)
Inductive turn :=
  | Stops
  | Again (out_pkt : option (list Z)) (rest : list (list Z))
  | Exit (code : Z)
  | Uncaught (e : failure).

(** One turn: the menu, then the retry loop of lines 147 to 184.
    [sendto] with [out_pkt] still [None] is a [TypeError]. The result is
    what the turn sends and prints, and how it ends; [None] means the fuel
    ran out. *)
Definition one_turn (debug_mode : bool) (out_pkt : option bytes)
    (inputs : list str) (net : nat -> Client.recv) (fuel : nat)
    : option (list Client.event * turn) :=
  match menu debug_mode out_pkt inputs with
  | Leave => Some ([], Stops)
  | Fails e => Some ([], Uncaught e)
  | Proceed None _ _ => Some ([], Uncaught TypeError)
  | Proceed (Some pkt) quote_csv rest =>
      match Client.action pkt quote_csv net fuel with
      | None => None
      | Some (evs, Client.Done) => Some (evs, Again (Some pkt) rest)
      | Some (evs, Client.SysExit code) => Some (evs, Exit code)
      | Some (evs, Client.Uncaught e) => Some (evs, Uncaught (Packet e))
      end
  end.

End Session.

(** * Properties *)

(** ** Text and bytes *)

Lemma split_nonempty sep s : split sep s <> [].
Proof.
  destruct s as [|c s]; simpl; [done|].
  destruct (c =? sep); [done|]. by destruct (split sep s).
Qed.

Lemma split_no_sep sep s : sep ∉ s -> split sep s = [s].
Proof.
  induction s as [|c s IH]; intros Hs; simpl; [done|].
  apply not_elem_of_cons in Hs as [Hc Hs].
  destruct (Z.eqb_spec c sep); [congruence|].
  by rewrite IH.
Qed.

Lemma split_app_sep sep a b :
  sep ∉ a -> split sep (a ++ sep :: b) = a :: split sep b.
Proof.
  induction a as [|c a IH]; intros Ha; simpl.
  - by rewrite Z.eqb_refl.
  - apply not_elem_of_cons in Ha as [Hc Ha].
    destruct (Z.eqb_spec c sep); [congruence|].
    by rewrite IH.
Qed.

Lemma split_fields_no_sep sep s : Forall (fun f => sep ∉ f) (split sep s).
Proof.
  induction s as [|c s IH]; simpl.
  - repeat constructor. apply not_elem_of_nil.
  - destruct (Z.eqb_spec c sep) as [->|Hne].
    + constructor; [apply not_elem_of_nil | done].
    + destruct (split sep s) as [|f fs] eqn:E;
        [by destruct (split_nonempty sep s)|].
      inversion IH; subst.
      constructor; [|done]. apply not_elem_of_cons. auto.
Qed.

Lemma split_join sep l :
  l <> [] -> Forall (fun f => sep ∉ f) l -> split sep (join [sep] l) = l.
Proof.
  induction l as [|x l IH]; intros Hne Hl; [done|].
  inversion Hl as [|? ? Hx Hl']; subst.
  destruct l as [|y l]; simpl.
  - by apply split_no_sep.
  - rewrite split_app_sep by done. f_equal. by apply IH.
Qed.

Lemma join_split sep s : join [sep] (split sep s) = s.
Proof.
  induction s as [|c s IH]; simpl; [done|].
  destruct (Z.eqb_spec c sep) as [->|Hne].
  - pose proof (split_nonempty sep s).
    destruct (split sep s) as [|f fs] eqn:E; [done|].
    simpl. by rewrite <- IH.
  - destruct (split sep s) as [|f fs] eqn:E; [by destruct (split_nonempty sep s)|].
    rewrite <- IH. by destruct fs.
Qed.

Lemma split_head_no_sep sep s : sep ∉ item (split sep s) 0.
Proof.
  pose proof (split_fields_no_sep sep s) as H.
  destruct (split sep s) as [|f fs]; simpl; [apply not_elem_of_nil|].
  by inversion H.
Qed.

Lemma endswith_elem s c : endswith s c = true -> c ∈ s.
Proof.
  unfold endswith. destruct (last s) as [d|] eqn:E; [|done].
  intros H. apply Z.eqb_eq in H as ->.
  apply last_Some in E as [l' ->]. apply elem_of_app. right. by left.
Qed.

Lemma endswith_snoc s c d : endswith (s ++ [c]) d = (c =? d).
Proof. unfold endswith. by rewrite last_snoc. Qed.

Lemma strip_last_snoc s c : strip_last (s ++ [c]) = s.
Proof. apply removelast_last. Qed.

(** *** UTF-8 *)

Ltac bool_to_prop :=
  unfold is_true;
  repeat first
    [ rewrite andb_true_iff | rewrite andb_false_iff | rewrite orb_true_iff
    | rewrite orb_false_iff | rewrite negb_true_iff | rewrite negb_false_iff
    | rewrite Z.leb_le | rewrite Z.ltb_lt | rewrite Z.leb_gt
    | rewrite Z.ltb_ge | rewrite Z.eqb_eq | rewrite Z.eqb_neq ].

Ltac bool_to_prop_in H :=
  unfold is_true in H;
  repeat first
    [ rewrite andb_true_iff in H | rewrite andb_false_iff in H
    | rewrite orb_true_iff in H | rewrite orb_false_iff in H
    | rewrite negb_true_iff in H | rewrite negb_false_iff in H
    | rewrite Z.leb_le in H | rewrite Z.ltb_lt in H | rewrite Z.leb_gt in H
    | rewrite Z.ltb_ge in H | rewrite Z.eqb_eq in H | rewrite Z.eqb_neq in H ].


(** A closed decidable proposition, settled by running its decision. *)
Ltac decide_now := apply (bool_decide_unpack _); vm_compute; exact I.








Lemma split_elem sep s f c : f ∈ split sep s -> c ∈ f -> c ∈ s.
Proof.
  revert f. induction s as [|a s IH]; intros f; simpl.
  - intros ->%list_elem_of_singleton. by intros ?%not_elem_of_nil.
  - destruct (Z.eqb_spec a sep) as [->|Hne].
    + intros [->|Hf]%elem_of_cons Hc; [by apply not_elem_of_nil in Hc|].
      right. by eapply IH.
    + destruct (split sep s) as [|g gs] eqn:E;
        [by destruct (split_nonempty sep s)|].
      intros [->|Hf]%elem_of_cons Hc.
      * apply elem_of_cons in Hc as [->|Hc]; [by left|].
        right. apply (IH g); [by left|done].
      * right. apply (IH f); [by right|done].
Qed.

Lemma item_elem sep s i c : c ∈ item (split sep s) i -> c ∈ s.
Proof.
  unfold item. intros Hc.
  destruct (decide (i < length (split sep s))%nat) as [Hi|Hi].
  - eapply split_elem; [|exact Hc]. apply list_elem_of_In, nth_In. lia.
  - rewrite nth_overflow in Hc by lia. by apply not_elem_of_nil in Hc.
Qed.

(** ** The server *)

Import Server.

Lemma bp_INC d : buildPacket d INC None = Ok (INC ++ [SEMI]).
Proof. reflexivity. Qed.
Lemma bp_INP d : buildPacket d INP None = Ok (INP ++ [SEMI]).
Proof. reflexivity. Qed.
Lemma bp_INU d : buildPacket d INU None = Ok (INU ++ [SEMI]).
Proof. reflexivity. Qed.
Lemma bp_ROK d : buildPacket d ROK None = Ok (ROK ++ [SEMI]).
Proof. reflexivity. Qed.
Lemma bp_UAE d : buildPacket d UAE None = Ok (UAE ++ [SEMI]).
Proof. reflexivity. Qed.
Lemma bp_UNR d : buildPacket d UNR None = Ok (UNR ++ [SEMI]).
Proof. reflexivity. Qed.

Ltac bp_simpl :=
  rewrite ?bp_INC, ?bp_INP, ?bp_INU, ?bp_ROK, ?bp_UAE, ?bp_UNR;
  cbn [rbind].

Lemma str_eqb_eq a b : str_eqb a b = true <-> a = b.
Proof. unfold str_eqb. apply bool_decide_eq_true. Qed.

Lemma str_in_true a l : str_in a l = true <-> a ∈ l.
Proof. unfold str_in. apply bool_decide_eq_true. Qed.

Lemma str_in_false a l : str_in a l = false <-> a ∉ l.
Proof. unfold str_in. apply bool_decide_eq_false. Qed.

(** [reg_users.remove] only takes away. *)
Lemma list_remove_elem u l x : x ∈ list_remove u l -> x ∈ l.
Proof.
  induction l as [|y l IH]; simpl; [done|].
  destruct (str_eqb y u).
  - by right.
  - intros [->|H]%elem_of_cons; [by left | right; auto].
Qed.

Lemma list_remove_NoDup u l : NoDup l -> NoDup (list_remove u l).
Proof.
  induction 1 as [|y l Hy Hl IH]; simpl; [constructor|].
  destruct (str_eqb y u); [done|].
  constructor; [|done]. intros H. by apply Hy, (list_remove_elem u).
Qed.

Lemma list_remove_Forall (P : list Z -> Prop) u l :
  Forall P l -> Forall P (list_remove u l).
Proof.
  induction 1 as [|y l Hy Hl IH]; simpl; [constructor|].
  destruct (str_eqb y u); [done | by constructor].
Qed.

Lemma list_remove_gone u l : NoDup l -> u ∉ list_remove u l.
Proof.
  induction 1 as [|y l Hy Hl IH]; simpl; [apply not_elem_of_nil|].
  destruct (str_eqb y u) eqn:E.
  - apply str_eqb_eq in E as ->. done.
  - apply not_elem_of_cons. split; [|done].
    intros ->. unfold str_eqb in E. by rewrite bool_decide_eq_false in E.
Qed.

(** *** The pattern matcher *)

Lemma nullable_lang r : nullable r = true <-> lang r [].
Proof.
  split.
  - induction r; simpl; try done; intros H.
    + constructor.
    + apply andb_true_iff in H as [H1 H2].
      change (@nil Z) with (@nil Z ++ []). constructor; auto.
    + apply orb_true_iff in H as [H|H]; [apply L_AltL | apply L_AltR]; auto.
    + constructor.
  - intros H. remember [] as s eqn:Hs.
    induction H; simpl; try done.
    + apply app_eq_nil in Hs as [-> ->]. by rewrite IHlang1, IHlang2.
    + by rewrite IHlang.
    + rewrite IHlang by done. apply orb_true_r.
Qed.

Lemma lang_deriv c r s : lang r (c :: s) -> lang (deriv c r) s.
Proof.
  intros H. remember (c :: s) as cs eqn:Hcs. revert c s Hcs.
  induction H as [|lo hi a Ha|a|r1 r2 s1 s2 H1 IH1 H2 IH2|r1 r2 s0 H IH
                 |r1 r2 s0 H IH| |r0 s1 s2 H1 IH1 H2 IH2];
    intros c s Hcs; simpl.
  - done.
  - injection Hcs as -> <-.
    replace ((lo <=? c) && (c <=? hi)) with true; [constructor|].
    symmetry. bool_to_prop. lia.
  - injection Hcs as -> <-. rewrite Z.eqb_refl. constructor.
  - destruct s1 as [|a s1].
    + simpl in Hcs. subst s2.
      apply nullable_lang in H1. rewrite H1.
      apply L_AltR. by apply IH2.
    + injection Hcs as -> <-.
      assert (lang (Seq (deriv c r1) r2) (s1 ++ s2))
        by (constructor; auto).
      destruct (nullable r1); [by apply L_AltL | done].
  - apply L_AltL. by apply IH.
  - apply L_AltR. by apply IH.
  - done.
  - destruct s1 as [|a s1].
    + simpl in Hcs. by apply IH2.
    + injection Hcs as -> <-. constructor; auto.
Qed.

Lemma deriv_lang c r s : lang (deriv c r) s -> lang r (c :: s).
Proof.
  revert s. induction r as [| |lo hi|d|r1 IH1 r2 IH2|r1 IH1 r2 IH2|r IH];
    intros s; simpl.
  - inversion 1.
  - inversion 1.
  - destruct ((lo <=? c) && (c <=? hi)) eqn:E; inversion 1; subst.
    constructor. bool_to_prop_in E. lia.
  - destruct (Z.eqb_spec c d) as [->|]; inversion 1; subst. constructor.
  - assert (Hseq : lang (Seq (deriv c r1) r2) s -> lang (Seq r1 r2) (c :: s)).
    { inversion 1; subst.
      change (c :: s1 ++ s2) with ((c :: s1) ++ s2). constructor; auto. }
    destruct (nullable r1) eqn:E; [|done].
    inversion 1; subst; [auto|].
    change (c :: s) with ([] ++ c :: s).
    constructor; [by apply nullable_lang | auto].
  - inversion 1; subst; [apply L_AltL | apply L_AltR]; auto.
  - inversion 1; subst.
    change (c :: s1 ++ s2) with ((c :: s1) ++ s2). constructor; auto.
Qed.

(** [fullmatch] decides membership in the language of the pattern. *)
Lemma fullmatch_lang r s : fullmatch r s = true <-> lang r s.
Proof.
  revert r. induction s as [|c s IH]; intros r; simpl.
  - apply nullable_lang.
  - rewrite IH. split; [apply deriv_lang | apply lang_deriv].
Qed.

Lemma lang_cons r1 r2 c s :
  lang r1 [c] -> lang r2 s -> lang (Seq r1 r2) (c :: s).
Proof. intros H1 H2. change (c :: s) with ([c] ++ s). by constructor. Qed.

Lemma lang_upper c : 65 <= c <= 90 -> lang upper [c].
Proof. by constructor. Qed.

Lemma is_ticker_lang t : is_ticker t -> lang (rep_2_5 upper) t.
Proof.
  intros [Hlen Hup]. unfold rep_2_5.
  destruct t as [|c1 [|c2 [|c3 [|c4 [|c5 [|c6 t]]]]]]; simpl in Hlen;
    try lia;
    repeat match goal with
           | H : Forall _ (_ :: _) |- _ => apply Forall_cons in H as [? H]
           end.
  - do 2 (apply lang_cons; [by apply lang_upper|]).
    apply L_AltL. constructor.
  - do 2 (apply lang_cons; [by apply lang_upper|]).
    apply L_AltR. apply lang_cons; [by apply lang_upper|].
    apply L_AltL. constructor.
  - do 2 (apply lang_cons; [by apply lang_upper|]).
    apply L_AltR. apply lang_cons; [by apply lang_upper|].
    apply L_AltR. apply lang_cons; [by apply lang_upper|].
    apply L_AltL. constructor.
  - do 2 (apply lang_cons; [by apply lang_upper|]).
    apply L_AltR. apply lang_cons; [by apply lang_upper|].
    apply L_AltR. apply lang_cons; [by apply lang_upper|].
    apply L_AltR. by apply lang_upper.
Qed.

Lemma is_ticker_no_comma t : is_ticker t -> COMMA ∉ t.
Proof.
  intros [_ Hup] Hin. rewrite Forall_forall in Hup.
  apply Hup in Hin. unfold COMMA in Hin. lia.
Qed.

(** A comma-separated list of tickers is in the language of the pattern
    the server checks the request against. *)
Lemma tickers_lang ts :
  ts <> [] -> Forall is_ticker ts -> lang quotes_re (join [COMMA] ts).
Proof.
  intros Hne Hts.
  assert (H : exists p t, join [COMMA] ts = p ++ t
              /\ lang (Star (Seq (rep_2_5 upper) (Chr COMMA))) p
              /\ lang (rep_2_5 upper) t).
  { induction Hts as [|x l Hx Hl IH]; [done|].
    destruct l as [|y l].
    - exists [], x. repeat split; [constructor | by apply is_ticker_lang].
    - destruct IH as (p & t & Hj & Hp & Ht); [done|].
      exists ((x ++ [COMMA]) ++ p), t. repeat split; [|constructor; [|done]|done].
      + change (join [COMMA] (x :: y :: l))
          with (x ++ [COMMA] ++ join [COMMA] (y :: l)).
        rewrite Hj. by rewrite <- !app_assoc.
      + constructor; [by apply is_ticker_lang | constructor]. }
  destruct H as (p & t & -> & Hp & Ht). by constructor.
Qed.

Lemma tickers_match ts :
  ts <> [] -> Forall is_ticker ts ->
  re_match_anchored quotes_re (join [COMMA] ts) = true.
Proof.
  intros Hne Hts. unfold re_match_anchored.
  rewrite (proj2 (fullmatch_lang _ _)); [done|]. by apply tickers_lang.
Qed.

(** *** Packets *)

Lemma utf8_encode_app a b :
  utf8_encode (a ++ b)
  = match utf8_encode a, utf8_encode b with
    | Some x, Some y => Some (x ++ y)
    | _, _ => None
    end.
Proof.
  induction a as [|c a IH]; simpl.
  - by destruct (utf8_encode b).
  - rewrite IH. destruct (utf8_encode_cp c), (utf8_encode a), (utf8_encode b);
      try done. by rewrite app_assoc.
Qed.

Lemma encodable_app a b : encodable (a ++ b) <-> encodable a /\ encodable b.
Proof.
  unfold encodable. rewrite utf8_encode_app.
  destruct (utf8_encode a), (utf8_encode b); split;
    try (intros [? ?]); try (intros [[? ?] [? ?]]); try done;
    repeat split; by eexists.
Qed.

Lemma encodable_join sep l :
  encodable sep -> Forall encodable l -> encodable (join sep l).
Proof.
  intros Hsep. induction 1 as [|x l Hx Hl IH]; simpl; [by eexists|].
  destruct l; [done|]. rewrite !encodable_app. auto.
Qed.

Lemma price_loop_map d names acc :
  price_loop d names acc = acc ++ map (price_of d) names.
Proof.
  revert acc. induction names as [|n names IH]; intros acc; simpl.
  - by rewrite app_nil_r.
  - assert (Hp : price_of d n
                 = match d !! n with Some p => p | None => BAD_STOCK end)
      by (unfold price_of; by destruct (d !! n)).
    destruct (d !! n); rewrite IH, <- app_assoc, Hp; reflexivity.
Qed.

Lemma price_of_encodable d t : catalog_encodable d -> encodable (price_of d t).
Proof.
  intros Hd. unfold price_of. destruct (d !! t) eqn:E; simpl.
  - by eapply Hd.
  - by eexists.
Qed.

Lemma to_bytes_encodable s : encodable s -> exists b, to_bytes s = Ok b.
Proof. unfold to_bytes. intros [b ->]. by eexists. Qed.

(** The quote reply is [ROK] followed by the price of each name. *)
Lemma buildPacket_QUO d csv :
  buildPacket d QUO (Some csv)
  = to_bytes (ROK ++ [COMMA]
              ++ join [COMMA] (map (price_of d) (split COMMA csv)) ++ [SEMI]).
Proof.
  unfold buildPacket. change (str_eqb QUO QUO) with true. cbv zeta iota beta.
  by rewrite price_loop_map.
Qed.

Lemma buildPacket_QUO_ok d csv :
  catalog_encodable d -> exists b, buildPacket d QUO (Some csv) = Ok b.
Proof.
  intros Hd. rewrite buildPacket_QUO. apply to_bytes_encodable.
  rewrite !encodable_app. repeat split; try by eexists.
  apply encodable_join; [by eexists|].
  apply Forall_map, Forall_forall. intros t _. by apply price_of_encodable.
Qed.

Section ServerFacts.

Variable isalnum_cp : Z -> bool.
Variable lower : str -> str.

(** A text without [;] never reaches the username check or the ticker
    check: it is answered by the first branch or by the last one. *)
Lemma handle_no_semicolon st data :
  SEMI ∉ data ->
  handle isalnum_cp lower st data
  = Ok (Some ((if str_in (item (split COMMA data) 0) [REG; UNR; QUO]
               then INP else INC) ++ [SEMI]), st).
Proof.
  intros Hs. unfold handle. cbv zeta.
  destruct (str_in (item (split COMMA data) 0) [REG; UNR; QUO]) eqn:E0;
    cbn [negb]; [|by bp_simpl].
  destruct (endswith (item (split COMMA data) 1) SEMI) eqn:E1.
  { apply endswith_elem, item_elem in E1. done. }
  rewrite andb_false_r.
  destruct (endswith data SEMI) eqn:E2.
  { by apply endswith_elem in E2. }
  rewrite andb_false_r. by bp_simpl.
Qed.



(** A request whose command is [QUO] leaves both globals as they are. *)
Lemma handle_QUO_frame st data r st' :
  item (split COMMA data) 0 = QUO ->
  handle isalnum_cp lower st data = Ok (r, st') -> st' = st.
Proof.
  intros H0. unfold handle. cbv zeta. rewrite H0.
  change (str_in QUO [REG; UNR; QUO]) with true.
  change (str_in QUO [REG; UNR]) with false.
  rewrite andb_false_r. cbn [negb andb].
  repeat match goal with
         | |- context [rbind (buildPacket ?d ?c (Some ?x)) _] =>
             destruct (buildPacket d c (Some x)); cbn [rbind]
         | |- context [if ?b then _ else _] => destruct b
         | _ => progress bp_simpl
         end;
    try done; by intros [= <- <-].
Qed.

(** C8: handling a datagram whose command is QUO changes neither the
    registered users nor the catalog, so the same bytes handled again in
    the state it left get the same response. *)
Theorem C8_quo_frame_and_replay st raw data pkt st' :
  decode raw = Ok data ->
  item (split COMMA data) 0 = QUO ->
  serve_once isalnum_cp lower st raw = Sent pkt st' ->
  reg_users st' = reg_users st /\ stock_dict st' = stock_dict st
  /\ serve_once isalnum_cp lower st' raw = Sent pkt st'.
Proof.
  intros Hd H0 Hs. unfold serve_once in Hs. rewrite Hd in Hs.
  destruct (handle isalnum_cp lower st data) as [[[p|] st1]|e] eqn:E;
    try done.
  injection Hs as <- <-.
  apply handle_QUO_frame in E as Hst; [|done]. subst st1.
  repeat split. unfold serve_once. by rewrite Hd, E.
Qed.

Lemma store_ok_nil : store_ok lower [].
Proof. split; constructor. Qed.

Section Lowered.

(** Lowering a lowered string changes nothing. *)
Hypothesis lower_idem : forall s, lower (lower s) = lower s.

Lemma handle_store_ok st data r st' :
  store_ok lower (reg_users st) ->
  handle isalnum_cp lower st data = Ok (r, st') ->
  store_ok lower (reg_users st').
Proof.
  intros [Hnd Hlow]. unfold handle. cbv zeta.
  set (given_uname := lower (strip_last (item (split COMMA data) 1))).
  destruct (negb (str_in _ [REG; UNR; QUO]));
    [bp_simpl; by intros [= <- <-]|].
  destruct (_ && _ && endswith (item (split COMMA data) 1) SEMI).
  - destruct (_ || negb (isalnum isalnum_cp given_uname));
      [bp_simpl; by intros [= <- <-]|].
    destruct (str_in given_uname (reg_users st)) eqn:Hin;
      destruct (str_eqb _ REG), (str_eqb _ UNR);
      cbn [andb negb]; bp_simpl; intros [= <- <-]; cbn [reg_users];
      try done.
    + split; [by apply list_remove_NoDup | by apply list_remove_Forall].
    + apply str_in_false in Hin. split.
      * apply NoDup_app. repeat split; [done| |apply NoDup_singleton].
        intros x Hx ->%list_elem_of_singleton. done.
      * apply Forall_app. split; [done|]. constructor; [|constructor].
        apply lower_idem.
    + apply str_in_false in Hin. split.
      * apply NoDup_app. repeat split; [done| |apply NoDup_singleton].
        intros x Hx ->%list_elem_of_singleton. done.
      * apply Forall_app. split; [done|]. constructor; [|constructor].
        apply lower_idem.
  - repeat match goal with
           | |- context [rbind (buildPacket ?d ?c (Some ?x)) _] =>
               destruct (buildPacket d c (Some x)); cbn [rbind]
           | |- context [if ?b then _ else _] => destruct b
           | _ => progress bp_simpl
           end;
      try done; by intros [= <- <-].
Qed.

Lemma serve_once_store_ok st raw pkt st' :
  store_ok lower (reg_users st) ->
  serve_once isalnum_cp lower st raw = Sent pkt st' ->
  store_ok lower (reg_users st').
Proof.
  intros Hok. unfold serve_once.
  destruct (decode raw) as [data|]; [|done].
  destruct (handle isalnum_cp lower st data) as [[[p|] st1]|e] eqn:E;
    try done.
  intros [= <- <-]. by eapply handle_store_ok.
Qed.

Lemma serve_store_ok st inbox out st' :
  store_ok lower (reg_users st) ->
  serve isalnum_cp lower st inbox = (out, Ok st') ->
  store_ok lower (reg_users st').
Proof.
  revert st out. induction inbox as [|raw inbox IH]; intros st out Hok; simpl.
  - by intros [= <- <-].
  - destruct (serve_once isalnum_cp lower st raw) as [pkt st1|e] eqn:E;
      [|done].
    destruct (serve isalnum_cp lower st1 inbox) as [out1 fin] eqn:E1.
    intros [= <- ->]. eapply IH; [|exact E1].
    by eapply serve_once_store_ok.
Qed.

(** C9: [reg_users] holds no name twice and only names in lower case.
    That is so for the empty list the server starts with, it is kept by
    the handling of every datagram, and so it holds after any sequence of
    datagrams. *)
Theorem C9_store_invariant :
  (forall d, store_ok lower (reg_users (State d [])))
  /\ (forall st raw pkt st',
        store_ok lower (reg_users st) ->
        serve_once isalnum_cp lower st raw = Sent pkt st' ->
        store_ok lower (reg_users st'))
  /\ (forall d inbox out st,
        serve isalnum_cp lower (State d []) inbox = (out, Ok st) ->
        store_ok lower (reg_users st)).
Proof.
  split; [intros; apply store_ok_nil|]. split.
  - apply serve_once_store_ok.
  - intros d inbox out st. apply serve_store_ok, store_ok_nil.
Qed.

End Lowered.

(** C3, as the code has it: a datagram whose text holds no [;] is
    answered INC when its first field is not one of REG, UNR and QUO, and
    INP when it is; the globals stay as they were. *)
Theorem C3_no_semicolon_INC_or_INP st raw data :
  decode raw = Ok data ->
  SEMI ∉ data ->
  serve_once isalnum_cp lower st raw
  = Sent ((if str_in (item (split COMMA data) 0) [REG; UNR; QUO]
           then INP else INC) ++ [SEMI]) st.
Proof.
  intros Hd Hs. unfold serve_once.
  by rewrite Hd, handle_no_semicolon.
Qed.

(** C1, at the failing input: the one-byte datagram [0xff] is not UTF-8,
    the decode raises [UnicodeDecodeError], no response is sent, and the
    serve loop ends there whatever datagrams were to follow. *)
Theorem C1_undecodable_datagram_stops_server st rest :
  serve_once isalnum_cp lower st [0xFF] = Raised UnicodeDecodeError
  /\ serve isalnum_cp lower st ([0xFF] :: rest) = ([], Err UnicodeDecodeError).
Proof. split; reflexivity. Qed.

Section Alnum.

(** The comma is not an alphanumeric character. *)
Hypothesis isalnum_comma : isalnum_cp COMMA = false.

Lemma isalnum_no_comma u : isalnum isalnum_cp u = true -> COMMA ∉ u.
Proof.
  unfold isalnum. destruct u as [|c u]; [done|].
  intros H Hin. rewrite forallb_forall in H.
  apply list_elem_of_In, H in Hin. congruence.
Qed.

(** C5: with [u] a valid username that is not registered, the datagram
    [REG,u;] is answered ROK and [u] is appended to [reg_users]; the same
    datagram again is answered UAE and leaves [reg_users] as it is. *)
Theorem C5_register_twice st raw u :
  valid_username isalnum_cp lower u ->
  u ∉ reg_users st ->
  decode raw = Ok (REG ++ [COMMA] ++ u ++ [SEMI]) ->
  let st1 := State (stock_dict st) (reg_users st ++ [u]) in
  serve_once isalnum_cp lower st raw = Sent (ROK ++ [SEMI]) st1
  /\ serve_once isalnum_cp lower st1 raw = Sent (UAE ++ [SEMI]) st1.
Proof.
  intros (Hlow & Haln & Hlen) Hnew Hd st1.
  assert (Hsplit : split COMMA (REG ++ [COMMA] ++ u ++ [SEMI])
                   = [REG; u ++ [SEMI]]).
  { change (REG ++ [COMMA] ++ u ++ [SEMI])
      with (REG ++ COMMA :: (u ++ [SEMI])).
    rewrite split_app_sep by decide_now.
    rewrite split_no_sep; [done|].
    apply not_elem_of_app. split; [by apply isalnum_no_comma|].
    decide_now. }
  assert (Hbig : (MAX_SIZE <? length u)%nat = false).
  { apply Nat.ltb_ge. unfold MAX_NAME, MAX_SIZE in *. lia. }
  assert (Hgen : forall users,
    handle isalnum_cp lower (State (stock_dict st) users)
           (REG ++ [COMMA] ++ u ++ [SEMI])
    = if str_in u users
      then Ok (Some (UAE ++ [SEMI]), State (stock_dict st) users)
      else Ok (Some (ROK ++ [SEMI]),
               State (stock_dict st) (users ++ [u]))).
  { intros users. unfold handle. cbv zeta. rewrite Hsplit.
    cbn [item nth length reg_users stock_dict].
    change (str_in REG [REG; UNR; QUO]) with true.
    change (str_in REG [REG; UNR]) with true.
    change (str_eqb REG REG) with true.
    change (2 =? REG_FIELDS)%nat with true.
    rewrite endswith_snoc, strip_last_snoc, Hlow, Hbig, Haln.
    change (SEMI =? SEMI) with true. cbn [negb andb orb].
    destruct (str_in u users); cbn [negb]; by bp_simpl. }
  split.
  - unfold serve_once. rewrite Hd. destruct st as [d users].
    cbn [stock_dict reg_users] in *. rewrite Hgen.
    apply str_in_false in Hnew. by rewrite Hnew.
  - unfold serve_once. rewrite Hd. unfold st1. rewrite Hgen.
    assert (Hin : str_in u (reg_users st ++ [u]) = true).
    { apply str_in_true, elem_of_app. right. by left. }
    by rewrite Hin.
Qed.

End Alnum.



(** C4: an accepted QUO request, from a registered user and with a
    well-formed username, whose ticker text is the comma-separated list
    [ts] of tickers, is answered with ROK followed by one price for each
    ticker of [ts], in the order of [ts]: the catalog's price where the
    ticker is in the catalog and [-1] where it is not. *)
Theorem C4_quote_prices st raw data ts :
  decode raw = Ok data ->
  catalog_encodable (stock_dict st) ->
  item (split COMMA data) 0 = QUO ->
  (QUOTE_FIELDS <= length (split COMMA data))%nat ->
  endswith data SEMI = true ->
  (length (lower (item (split COMMA data) 1)) <= MAX_NAME)%nat ->
  isalnum isalnum_cp (lower (item (split COMMA data) 1)) = true ->
  lower (item (split COMMA data) 1) ∈ reg_users st ->
  strip_last (join [COMMA] (drop 2 (split COMMA data))) = join [COMMA] ts ->
  ts <> [] ->
  Forall is_ticker ts ->
  let prices :=
    map (fun t => match stock_dict st !! t with
                  | Some price => price
                  | None => BAD_STOCK
                  end) ts in
  length prices = length ts
  /\ exists pkt,
       to_bytes (ROK ++ [COMMA] ++ join [COMMA] prices ++ [SEMI]) = Ok pkt
       /\ serve_once isalnum_cp lower st raw = Sent pkt st.
Proof.
  intros Hdec Hd H0 Hn Hsemi Hlen Haln Hreg Hcsv Hne Hts prices.
  split; [apply length_map|].
  assert (Hprices : prices = map (price_of (stock_dict st)) ts).
  { apply map_ext. intros t. unfold price_of. by destruct (_ !! t). }
  assert (Hbp : buildPacket (stock_dict st) QUO (Some (join [COMMA] ts))
                = to_bytes (ROK ++ [COMMA] ++ join [COMMA] prices ++ [SEMI])).
  { rewrite buildPacket_QUO, split_join, Hprices; [done..|].
    eapply Forall_impl; [exact Hts|]. apply is_ticker_no_comma. }
  destruct (buildPacket_QUO_ok (stock_dict st) (join [COMMA] ts) Hd)
    as [pkt Hpkt].
  exists pkt. split; [by rewrite <- Hbp|].
  unfold serve_once. rewrite Hdec. unfold handle. cbv zeta.
  rewrite H0, Hsemi, Hcsv, Haln.
  change (str_in QUO [REG; UNR; QUO]) with true.
  change (str_in QUO [REG; UNR]) with false.
  change (str_eqb QUO QUO) with true.
  rewrite andb_false_r.
  apply Nat.leb_le in Hn. rewrite Hn.
  apply Nat.ltb_ge in Hlen. rewrite Hlen.
  apply str_in_true in Hreg. rewrite Hreg.
  rewrite tickers_match by done.
  cbn [negb andb orb]. by rewrite Hpkt.
Qed.

End ServerFacts.

(** *** The handler on ASCII text *)

Lemma ascii_lower_idem s : ascii_lower (ascii_lower s) = ascii_lower s.
Proof.
  unfold ascii_lower. rewrite map_map. apply map_ext. intros c.
  destruct ((65 <=? c) && (c <=? 90)) eqn:E; [|by rewrite E].
  bool_to_prop_in E.
  replace ((65 <=? c + 32) && (c + 32 <=? 90)) with false; [done|].
  symmetry. bool_to_prop. lia.
Qed.

Lemma ascii_isalnum_comma : ascii_isalnum_cp COMMA = false.
Proof. reflexivity. Qed.

Lemma catalog_encodable_list_to_map (l : list (list Z * list Z)) :
  Forall (fun kv => encodable kv.2) l ->
  catalog_encodable (list_to_map l).
Proof.
  intros Hl t p Hp. apply elem_of_list_to_map_2 in Hp.
  rewrite Forall_forall in Hl. by apply (Hl (t, p)).
Qed.

Lemma example_catalog_encodable : catalog_encodable example_catalog.
Proof.
  apply catalog_encodable_list_to_map.
  repeat constructor; by eexists.
Qed.

(** The scenarios the protocol is described by, run on the code. *)
Example ticker_grammar :
  re_match_anchored quotes_re (py "IBM,FB,NFLX") = true
  /\ re_match_anchored quotes_re (py "ibm,FB") = false
  /\ re_match_anchored quotes_re (py "A,FB") = false
  /\ re_match_anchored quotes_re (py "IBM,") = false
  /\ re_match_anchored quotes_re (py "ABCDEF") = false
  /\ re_match_anchored quotes_re (py "IBM" ++ [NEWLINE]) = true.
Proof. repeat split; reflexivity. Qed.

Example scenario_register_then_quote :
  serve ascii_isalnum_cp ascii_lower (State example_catalog [])
    [py "REG,alice;"; py "QUO,alice,IBM,FB,NFLX;"]
  = ([py "ROK;"; py "ROK,121.11,23.22,-1;"],
     Ok (State example_catalog [py "alice"])).
Proof. reflexivity. Qed.

Example scenario_quote_unregistered :
  serve_once ascii_isalnum_cp ascii_lower (State example_catalog [])
    (py "QUO,bob,IBM;")
  = Sent (py "UNR;") (State example_catalog []).
Proof. reflexivity. Qed.

Example scenario_bad_username :
  serve_once ascii_isalnum_cp ascii_lower (State example_catalog [])
    (py "REG,bad user!;")
  = Sent (py "INU;") (State example_catalog []).
Proof. reflexivity. Qed.

Example scenario_unregister :
  serve ascii_isalnum_cp ascii_lower (State example_catalog [])
    [py "UNR,alice;"; py "REG,Alice;"; py "UNR,ALICE;"; py "QUO,alice,IBM;"]
  = ([py "UNR;"; py "ROK;"; py "ROK;"; py "UNR;"],
     Ok (State example_catalog [])).
Proof. reflexivity. Qed.

(** C2, at the failing input: a username of 33 letters is longer than
    [MAX_NAME], yet the REG datagram that carries it is answered ROK and
    the name is registered, because this branch compares the length with
    [MAX_SIZE]. *)
Theorem C2_long_username_is_registered d :
  let u := repeat 97 33 in
  (MAX_NAME < length (ascii_lower (strip_last (u ++ [SEMI]))))%nat
  /\ serve_once ascii_isalnum_cp ascii_lower (State d [])
       (REG ++ [COMMA] ++ u ++ [SEMI])
     = Sent (ROK ++ [SEMI]) (State d [u]).
Proof. split; [vm_compute; lia | reflexivity]. Qed.

(** The same name in a QUO request is turned down: that branch compares
    with [MAX_NAME]. *)
Lemma long_username_in_QUO d users :
  serve_once ascii_isalnum_cp ascii_lower (State d users)
    (QUO ++ [COMMA] ++ repeat 97 33 ++ [COMMA] ++ py "IBM" ++ [SEMI])
  = Sent (INU ++ [SEMI]) (State d users).
Proof. reflexivity. Qed.

(** C3, as stated, fails: [REG,alice] holds no [;], and the answer is INP,
    not INC. *)
Lemma C3_counterexample :
  decode (py "REG,alice") = Ok (py "REG,alice")
  /\ (SEMI ∉ py "REG,alice")
  /\ serve_once ascii_isalnum_cp ascii_lower (State ∅ []) (py "REG,alice")
     = Sent (INP ++ [SEMI]) (State ∅ [])
  /\ INP ++ [SEMI] <> INC ++ [SEMI].
Proof.
  split; [reflexivity|]. split; [decide_now|].
  split; [reflexivity | discriminate].
Qed.

Lemma C3_witness :
  serve_once ascii_isalnum_cp ascii_lower (State ∅ [py "alice"])
    (py "QUO,alice,IBM")
  = Sent (INP ++ [SEMI]) (State ∅ [py "alice"]).
Proof.
  apply (C3_no_semicolon_INC_or_INP ascii_isalnum_cp ascii_lower
           (State ∅ [py "alice"]) (py "QUO,alice,IBM") (py "QUO,alice,IBM")).
  - reflexivity.
  - decide_now.
Defined.

Lemma C4_witness :
  serve_once ascii_isalnum_cp ascii_lower
    (State example_catalog [py "alice"]) (py "QUO,alice,IBM,FB,NFLX;")
  = Sent (py "ROK,121.11,23.22,-1;") (State example_catalog [py "alice"]).
Proof.
  destruct (C4_quote_prices ascii_isalnum_cp ascii_lower
              (State example_catalog [py "alice"])
              (py "QUO,alice,IBM,FB,NFLX;") (py "QUO,alice,IBM,FB,NFLX;")
              [py "IBM"; py "FB"; py "NFLX"])
    as (_ & pkt & Hpkt & Hsent).
  - reflexivity.
  - apply example_catalog_encodable.
  - reflexivity.
  - vm_compute. lia.
  - reflexivity.
  - vm_compute. lia.
  - reflexivity.
  - decide_now.
  - reflexivity.
  - discriminate.
  - repeat constructor; vm_compute; first [lia | discriminate].
  - vm_compute in Hpkt. injection Hpkt as <-. exact Hsent.
Defined.

Lemma C5_witness :
  serve_once ascii_isalnum_cp ascii_lower (State example_catalog [])
    (py "REG,alice;")
  = Sent (py "ROK;") (State example_catalog [py "alice"])
  /\ serve_once ascii_isalnum_cp ascii_lower
       (State example_catalog [py "alice"]) (py "REG,alice;")
     = Sent (py "UAE;") (State example_catalog [py "alice"]).
Proof.
  apply (C5_register_twice ascii_isalnum_cp ascii_lower ascii_isalnum_comma
           (State example_catalog []) (py "REG,alice;") (py "alice")).
  - split; [reflexivity|]. split; [reflexivity | vm_compute; lia].
  - apply not_elem_of_nil.
  - reflexivity.
Defined.

Lemma C8_witness :
  reg_users (State example_catalog [py "alice"]) = [py "alice"]
  /\ stock_dict (State example_catalog [py "alice"]) = example_catalog
  /\ serve_once ascii_isalnum_cp ascii_lower
       (State example_catalog [py "alice"]) (py "QUO,alice,IBM,ZZ;")
     = Sent (py "ROK,121.11,-1;") (State example_catalog [py "alice"]).
Proof.
  apply (C8_quo_frame_and_replay ascii_isalnum_cp ascii_lower
           (State example_catalog [py "alice"]) (py "QUO,alice,IBM,ZZ;")
           (py "QUO,alice,IBM,ZZ;")).
  - reflexivity.
  - reflexivity.
  - reflexivity.
Defined.

Lemma C9_witness : store_ok ascii_lower [py "alice"; py "carol"].
Proof.
  apply (proj2 (proj2 (C9_store_invariant ascii_isalnum_cp ascii_lower
                         ascii_lower_idem))
           example_catalog
           [py "REG,Alice;"; py "REG,bob;"; py "REG,ALICE;"; py "REG,Carol;";
            py "UNR,BOB;"]
           [py "ROK;"; py "ROK;"; py "UAE;"; py "ROK;"; py "ROK;"]
           (State example_catalog [py "alice"; py "carol"])).
  reflexivity.
Defined.

(** ** The client *)






(** The retry loop always ends: fuel for the attempts that are left and
    for the last test of the loop condition is enough. *)
Lemma retry_loop_total out_pkt quote_csv net fuel attempts :
  (Client.ATTEMPT_LIMIT - attempts < fuel)%nat ->
  is_Some (Client.retry_loop out_pkt quote_csv net fuel attempts).
Proof.
  revert attempts. induction fuel as [|fuel IH]; intros attempts Hf; [lia|].
  simpl. destruct (Nat.ltb_spec attempts Client.ATTEMPT_LIMIT) as [Hlt|Hge];
    [|by eexists].
  destruct (net attempts) as [raw| |err].
  - destruct (Client.handle_reply quote_csv raw). by eexists.
  - destruct (IH (attempts + 1)%nat) as [[evs e] ->]; [lia|]. by eexists.
  - by eexists.
Qed.

Lemma sends_map_Print lines :
  omap (fun e => match e with
                 | Client.Send p => Some p
                 | Client.Print _ => None
                 end) (map Client.Print lines) = [].
Proof. induction lines as [|l lines IH]; [done | exact IH]. Qed.

(** Whatever the network does, every packet the loop sends is [out_pkt],
    and it sends no more of them than there are attempts left. *)
Lemma retry_loop_sends out_pkt quote_csv net fuel attempts evs e :
  Client.retry_loop out_pkt quote_csv net fuel attempts = Some (evs, e) ->
  exists n, (n <= Client.ATTEMPT_LIMIT - attempts)%nat
            /\ Client.sends evs = repeat out_pkt n.
Proof.
  revert attempts evs e.
  induction fuel as [|fuel IH]; intros attempts evs e; [done|]. simpl.
  destruct (Nat.ltb_spec attempts Client.ATTEMPT_LIMIT) as [Hlt|Hge].
  - destruct (net attempts) as [raw| |err].
    + destruct (Client.handle_reply quote_csv raw) as [lines x].
      intros [= <- <-]. exists 1%nat. split; [lia|].
      unfold Client.sends. cbn [omap list_omap].
      by rewrite sends_map_Print.
    + destruct (Client.retry_loop out_pkt quote_csv net fuel (attempts + 1))
        as [[evs1 e1]|] eqn:E; [|done].
      intros [= <- <-]. apply IH in E as (n & Hn & Hs).
      exists (S n). split; [lia|].
      unfold Client.sends in *. cbn [omap list_omap repeat]. by rewrite Hs.
    + intros [= <- <-]. exists 1%nat. split; [lia | done].
  - intros [= <- <-]. exists 0%nat. split; [lia | done].
Qed.

(** C6: when the first three attempts of a user action all time out, the
    client sends the same packet three times and no more, prints the
    retry line after the first two timeouts and the exhaustion line after
    the third, and goes back to the prompt without an exception. Whatever
    the network does, the packets sent in one action are copies of
    [out_pkt], three at most. *)
Theorem C6_three_timeouts out_pkt quote_csv net fuel :
  net 0%nat = Client.Timeout ->
  net 1%nat = Client.Timeout ->
  net 2%nat = Client.Timeout ->
  (Client.ATTEMPT_LIMIT < fuel)%nat ->
  Client.action out_pkt quote_csv net fuel
  = Some ([Client.Send out_pkt; Client.Print (py "timeout -- retry...");
           Client.Send out_pkt; Client.Print (py "timeout -- retry...");
           Client.Send out_pkt; Client.Print (py "timeout limit exceeded")],
          Client.Done)
  /\ (forall net' fuel' evs e,
        Client.action out_pkt quote_csv net' fuel' = Some (evs, e) ->
        exists n, (n <= Client.ATTEMPT_LIMIT)%nat
                  /\ Client.sends evs = repeat out_pkt n).
Proof.
  intros H0 H1 H2 Hf. split.
  - unfold Client.action, Client.ATTEMPT_LIMIT in *.
    destruct fuel as [|[|[|[|fuel]]]]; try lia.
    cbn [Client.retry_loop Nat.ltb Nat.leb Nat.add Client.ATTEMPT_LIMIT].
    rewrite H0.
    cbn [Client.retry_loop Nat.ltb Nat.leb Nat.add Client.ATTEMPT_LIMIT].
    rewrite H1.
    cbn [Client.retry_loop Nat.ltb Nat.leb Nat.add Client.ATTEMPT_LIMIT].
    rewrite H2.
    destruct fuel; reflexivity.
  - intros net' fuel' evs e H. unfold Client.action in H.
    apply retry_loop_sends in H as (n & Hn & Hs).
    exists n. split; [lia | done].
Qed.

Lemma C6_witness :
  Client.sends
    (default [] (fst <$> Client.action (py "REG,alice;") None
                           (fun _ => Client.Timeout) 4))
  = [py "REG,alice;"; py "REG,alice;"; py "REG,alice;"].
Proof.
  destruct (C6_three_timeouts (py "REG,alice;") None
              (fun _ => Client.Timeout) 4) as [-> _].
  - reflexivity.
  - reflexivity.
  - reflexivity.
  - vm_compute. lia.
  - reflexivity.
Defined.

Example scenario_render_prices :
  Client.handle_reply (Some (py "IBM,FB,NFLX")) (py "ROK,121.11,23.22,-1;")
  = ([py "Request OK"; py "IBM : 121.11"; py "FB : 23.22";
      py "NFLX : invalid stock"], None).
Proof. reflexivity. Qed.

Lemma response_codes_unknown code :
  code ∉ Client.known_codes -> Client.response_codes !! code = None.
Proof. intros H. by apply not_elem_of_list_to_map_1. Qed.

(** C10: a reply that decodes and whose first field is none of the six
    response codes makes the table lookup raise [KeyError]: nothing is
    printed, and in the retry loop the exception is not caught, so the
    action ends with it after the one send. *)
Theorem C10_unknown_code_raises out_pkt quote_csv net fuel raw fields :
  Client.reply_fields raw = Ok fields ->
  item fields 0 ∉ Client.known_codes ->
  net 0%nat = Client.Reply raw ->
  (0 < fuel)%nat ->
  Client.handle_reply quote_csv raw = ([], Some KeyError)
  /\ Client.action out_pkt quote_csv net fuel
     = Some ([Client.Send out_pkt], Client.Uncaught KeyError).
Proof.
  intros Hf Hcode Hnet Hfuel.
  assert (Hr : Client.handle_reply quote_csv raw = ([], Some KeyError)).
  { unfold Client.handle_reply.
    by rewrite Hf, response_codes_unknown. }
  split; [done|].
  destruct fuel as [|fuel]; [lia|].
  unfold Client.action.
  cbn [Client.retry_loop Nat.ltb Nat.leb Client.ATTEMPT_LIMIT].
  by rewrite Hnet, Hr.
Qed.

Lemma C10_witness :
  Client.handle_reply None (py "XYZ;") = ([], Some KeyError)
  /\ Client.action (py "REG,alice;") None
       (fun _ => Client.Reply (py "XYZ;")) 4
     = Some ([Client.Send (py "REG,alice;")], Client.Uncaught KeyError).
Proof.
  apply (C10_unknown_code_raises (py "REG,alice;") None
           (fun _ => Client.Reply (py "XYZ;")) 4 (py "XYZ;") [py "XYZ"]).
  - reflexivity.
  - decide_now.
  - reflexivity.
  - vm_compute. lia.
Defined.

(** ** More on the server: registering and unregistering *)

Lemma list_remove_other u l x :
  x <> u -> x ∈ list_remove u l <-> x ∈ l.
Proof.
  intros Hne. induction l as [|y l IH]; simpl; [done|].
  destruct (str_eqb y u) eqn:E.
  - apply str_eqb_eq in E as ->. rewrite elem_of_cons.
    split; [by right | by intros [->|?]].
  - by rewrite !elem_of_cons, IH.
Qed.

Lemma split_request cmd u :
  COMMA ∉ cmd -> COMMA ∉ u ->
  split COMMA (cmd ++ [COMMA] ++ u ++ [SEMI]) = [cmd; u ++ [SEMI]].
Proof.
  intros Hc Hu.
  change (cmd ++ [COMMA] ++ u ++ [SEMI]) with (cmd ++ COMMA :: (u ++ [SEMI])).
  rewrite split_app_sep by done. rewrite split_no_sep; [done|].
  apply not_elem_of_app. split; [done | decide_now].
Qed.

Section Registration.

Variable isalnum_cp : Z -> bool.
Variable lower : str -> str.

(** What the handler does with the text [cmd,u;] for [cmd] one of REG and
    UNR and [u] free of commas, in full. *)
Lemma handle_reg_unr st cmd u :
  cmd ∈ [REG; UNR] ->
  COMMA ∉ u ->
  handle isalnum_cp lower st (cmd ++ [COMMA] ++ u ++ [SEMI])
  = let name := lower u in
    if (MAX_SIZE <? length name)%nat || negb (isalnum isalnum_cp name)
    then Ok (Some (INU ++ [SEMI]), st)
    else if str_in name (reg_users st) then
      if str_eqb cmd REG then Ok (Some (UAE ++ [SEMI]), st)
      else Ok (Some (ROK ++ [SEMI]),
               State (stock_dict st) (list_remove name (reg_users st)))
    else
      if str_eqb cmd REG
      then Ok (Some (ROK ++ [SEMI]),
               State (stock_dict st) (reg_users st ++ [name]))
      else Ok (Some (UNR ++ [SEMI]), st).
Proof.
  intros Hcmd Hu. cbv zeta.
  assert (Hc : COMMA ∉ cmd).
  { apply elem_of_cons in Hcmd as [->|Hcmd]; [decide_now|].
    apply list_elem_of_singleton in Hcmd as ->. decide_now. }
  unfold handle. cbv zeta. rewrite split_request by done.
  cbn [item nth length].
  rewrite endswith_snoc, strip_last_snoc.
  change (SEMI =? SEMI) with true.
  change (2 =? REG_FIELDS)%nat with true.
  destruct (_ || negb (isalnum isalnum_cp (lower u))).
  - apply elem_of_cons in Hcmd as [->|Hcmd];
      [|apply list_elem_of_singleton in Hcmd as ->]; by bp_simpl.
  - destruct (str_in (lower u) (reg_users st));
      (apply elem_of_cons in Hcmd as [->|Hcmd];
       [|apply list_elem_of_singleton in Hcmd as ->]); by bp_simpl.
Qed.

(** X1: unregistering a name that is registered, in a store without
    duplicates, is answered ROK; afterwards the name is not registered,
    every other name is registered exactly if it was before, and the
    catalog is the same. *)
Theorem unregister_registered st raw u :
  NoDup (reg_users st) ->
  COMMA ∉ u ->
  isalnum isalnum_cp (lower u) = true ->
  (length (lower u) <= MAX_SIZE)%nat ->
  lower u ∈ reg_users st ->
  decode raw = Ok (UNR ++ [COMMA] ++ u ++ [SEMI]) ->
  exists st',
    serve_once isalnum_cp lower st raw = Sent (ROK ++ [SEMI]) st'
    /\ (lower u ∉ reg_users st')
    /\ (forall x, x <> lower u -> x ∈ reg_users st' <-> x ∈ reg_users st)
    /\ stock_dict st' = stock_dict st.
Proof.
  intros Hnd Hu Haln Hlen Hin Hdec.
  exists (State (stock_dict st) (list_remove (lower u) (reg_users st))).
  split; [|split; [|split]].
  - unfold serve_once. rewrite Hdec, handle_reg_unr; [|decide_now|done].
    cbv zeta. apply Nat.ltb_ge in Hlen. apply str_in_true in Hin.
    rewrite Hlen, Haln, Hin. reflexivity.
  - by apply list_remove_gone.
  - intros x Hx. by apply list_remove_other.
  - reflexivity.
Qed.

(** X2: unregistering a name that is not registered is answered UNR and
    changes nothing. *)
Theorem unregister_unknown st raw u :
  COMMA ∉ u ->
  isalnum isalnum_cp (lower u) = true ->
  (length (lower u) <= MAX_SIZE)%nat ->
  lower u ∉ reg_users st ->
  decode raw = Ok (UNR ++ [COMMA] ++ u ++ [SEMI]) ->
  serve_once isalnum_cp lower st raw = Sent (UNR ++ [SEMI]) st.
Proof.
  intros Hu Haln Hlen Hin Hdec.
  unfold serve_once. rewrite Hdec, handle_reg_unr; [|decide_now|done].
  cbv zeta. apply Nat.ltb_ge in Hlen. apply str_in_false in Hin.
  rewrite Hlen, Haln, Hin. reflexivity.
Qed.

(** X3: usernames are compared after lowering: two REG requests, or two
    UNR requests, whose usernames lower to the same string are handled
    alike in every state. *)
Theorem username_case_insensitive st cmd u1 u2 raw1 raw2 :
  cmd ∈ [REG; UNR] ->
  COMMA ∉ u1 -> COMMA ∉ u2 ->
  lower u1 = lower u2 ->
  decode raw1 = Ok (cmd ++ [COMMA] ++ u1 ++ [SEMI]) ->
  decode raw2 = Ok (cmd ++ [COMMA] ++ u2 ++ [SEMI]) ->
  serve_once isalnum_cp lower st raw1 = serve_once isalnum_cp lower st raw2.
Proof.
  intros Hcmd H1 H2 Hlow Hd1 Hd2. unfold serve_once.
  rewrite Hd1, Hd2, !handle_reg_unr by done. cbv zeta. by rewrite Hlow.
Qed.

End Registration.

Lemma unregister_registered_witness :
  exists st',
    serve_once ascii_isalnum_cp ascii_lower
      (State example_catalog [py "alice"; py "bob"]) (py "UNR,Alice;")
    = Sent (py "ROK;") st'
    /\ (py "alice" ∉ reg_users st').
Proof.
  destruct (unregister_registered ascii_isalnum_cp ascii_lower
              (State example_catalog [py "alice"; py "bob"])
              (py "UNR,Alice;") (py "Alice"))
    as (st' & Hs & Hout & _).
  - apply (bool_decide_unpack _). vm_compute. exact I.
  - decide_now.
  - reflexivity.
  - vm_compute. lia.
  - decide_now.
  - reflexivity.
  - exists st'. split; [exact Hs | exact Hout].
Defined.

Lemma unregister_unknown_witness :
  serve_once ascii_isalnum_cp ascii_lower
    (State example_catalog [py "bob"]) (py "UNR,alice;")
  = Sent (py "UNR;") (State example_catalog [py "bob"]).
Proof.
  apply (unregister_unknown ascii_isalnum_cp ascii_lower
           (State example_catalog [py "bob"]) (py "UNR,alice;") (py "alice")).
  - decide_now.
  - reflexivity.
  - vm_compute. lia.
  - decide_now.
  - reflexivity.
Defined.

Lemma username_case_insensitive_witness :
  serve_once ascii_isalnum_cp ascii_lower (State example_catalog [])
    (py "REG,Alice;")
  = serve_once ascii_isalnum_cp ascii_lower (State example_catalog [])
      (py "REG,aLICE;").
Proof.
  apply (username_case_insensitive ascii_isalnum_cp ascii_lower
           (State example_catalog []) REG (py "Alice") (py "aLICE")).
  - decide_now.
  - decide_now.
  - decide_now.
  - reflexivity.
  - reflexivity.
  - reflexivity.
Defined.

(** ** More on the server: what it can answer *)

Section Replies.

Variable isalnum_cp : Z -> bool.
Variable lower : str -> str.

(** The four ways the handler ends: an error code and nothing changed; a
    registration; an unregistration; a list of prices. *)
Lemma handle_outcomes st data pkt st' :
  handle isalnum_cp lower st data = Ok (Some pkt, st') ->
  (st' = st
   /\ exists code, code ∈ [INC; INP; INU; UAE; UNR] /\ pkt = code ++ [SEMI])
  \/ (item (split COMMA data) 0 = REG /\ pkt = ROK ++ [SEMI]
      /\ exists u, (u ∉ reg_users st)
           /\ st' = State (stock_dict st) (reg_users st ++ [u]))
  \/ (item (split COMMA data) 0 = UNR /\ pkt = ROK ++ [SEMI]
      /\ exists u, u ∈ reg_users st
           /\ st' = State (stock_dict st) (list_remove u (reg_users st)))
  \/ (item (split COMMA data) 0 = QUO /\ st' = st
      /\ exists csv,
           to_bytes (ROK ++ [COMMA]
                     ++ join [COMMA] (map (price_of (stock_dict st))
                                          (split COMMA csv))
                     ++ [SEMI]) = Ok pkt).
Proof.
  unfold handle. cbv zeta.
  set (given_command := item (split COMMA data) 0).
  set (given_uname := lower (strip_last (item (split COMMA data) 1))).
  assert (Herr : forall code,
            code ∈ [INC; INP; INU; UAE; UNR] ->
            Ok (Some (code ++ [SEMI]), st) = Ok (Some pkt, st') ->
            st' = st
            /\ exists code, code ∈ [INC; INP; INU; UAE; UNR]
                            /\ pkt = code ++ [SEMI]).
  { intros code Hc [= <- <-]. split; [done|]. by exists code. }
  destruct (negb (str_in given_command [REG; UNR; QUO]));
    [bp_simpl; intros Heq; left; apply (Herr INC); [decide_now | done]|].
  destruct (_ && _ && endswith (item (split COMMA data) 1) SEMI) eqn:E.
  - destruct (_ || negb (isalnum isalnum_cp given_uname));
      [bp_simpl; intros Heq; left; apply (Herr INU); [decide_now | done]|].
    destruct (str_in given_uname (reg_users st)) eqn:Hin;
      destruct (str_eqb given_command REG) eqn:HR;
      destruct (str_eqb given_command UNR) eqn:HU;
      cbn [andb negb]; bp_simpl; try done;
      repeat match goal with
             | H : str_in _ _ = true |- _ => apply str_in_true in H
             | H : str_in _ _ = false |- _ => apply str_in_false in H
             | H : str_eqb _ _ = true |- _ => apply str_eqb_eq in H
             end.
    + intros Heq; left; apply (Herr UAE); [decide_now | done].
    + intros Heq; left; apply (Herr UAE); [decide_now | done].
    + intros [= <- <-]. right. right. left.
      repeat split; [done|]. by exists given_uname.
    + intros [= <- <-]. right. left.
      repeat split; [done|]. by exists given_uname.
    + intros [= <- <-]. right. left.
      repeat split; [done|]. by exists given_uname.
    + intros Heq; left; apply (Herr UNR); [decide_now | done].
  - destruct (_ && _ && endswith data SEMI) eqn:E2;
      [|bp_simpl; intros Heq; left; apply (Herr INP); [decide_now | done]].
    apply andb_true_iff in E2 as [[_ HQ%str_eqb_eq]%andb_true_iff _].
    destruct (_ || _);
      [bp_simpl; intros Heq; left; apply (Herr INU); [decide_now | done]|].
    destruct (negb _);
      [bp_simpl; intros Heq; left; apply (Herr UNR); [decide_now | done]|].
    destruct (re_match_anchored _ _);
      [|bp_simpl; intros Heq; left; apply (Herr INP); [decide_now | done]].
    rewrite buildPacket_QUO.
    destruct (to_bytes _) as [b|] eqn:Hb; cbn [rbind]; [|done].
    intros [= <- <-]. right. right. right.
    repeat split; [done|]. by eexists.
Qed.

Lemma serve_once_outcomes st raw pkt st' :
  serve_once isalnum_cp lower st raw = Sent pkt st' ->
  exists data, decode raw = Ok data
               /\ handle isalnum_cp lower st data = Ok (Some pkt, st').
Proof.
  unfold serve_once. destruct (decode raw) as [data|]; [|done].
  destruct (handle isalnum_cp lower st data) as [[[p|] st1]|e] eqn:E;
    try done.
  intros [= <- <-]. by exists data.
Qed.

(** X4: one datagram changes the registered users by one name at most,
    and only when it is answered [ROK;]: the list stays as it is, or a
    name that was not in it is appended, or the first occurrence of a
    name that was in it is removed. The catalog never changes. *)
Theorem store_changes_by_one_name st raw pkt st' :
  serve_once isalnum_cp lower st raw = Sent pkt st' ->
  stock_dict st' = stock_dict st
  /\ (reg_users st' = reg_users st
      \/ (pkt = ROK ++ [SEMI]
          /\ exists u,
               ((u ∉ reg_users st) /\ reg_users st' = reg_users st ++ [u])
               \/ (u ∈ reg_users st
                   /\ reg_users st' = list_remove u (reg_users st)))).
Proof.
  intros (data & _ & H)%serve_once_outcomes.
  apply handle_outcomes in H
    as [[-> _]|[(_ & -> & u & Hu & ->)|[(_ & -> & u & Hu & ->)|(_ & -> & _)]]].
  - by split; [|left].
  - split; [done|]. right. split; [done|]. exists u. by left.
  - split; [done|]. right. split; [done|]. exists u. by right.
  - by split; [|left].
Qed.

End Replies.

Lemma store_changes_by_one_name_witness :
  stock_dict (State example_catalog [py "alice"; py "bob"]) = example_catalog
  /\ (reg_users (State example_catalog [py "alice"; py "bob"]) = [py "alice"]
      \/ (py "ROK;" = ROK ++ [SEMI]
          /\ exists u,
               ((u ∉ [py "alice"]) /\ [py "alice"; py "bob"] = [py "alice"] ++ [u])
               \/ (u ∈ [py "alice"]
                   /\ [py "alice"; py "bob"] = list_remove u [py "alice"]))).
Proof.
  apply (store_changes_by_one_name ascii_isalnum_cp ascii_lower
           (State example_catalog [py "alice"]) (py "REG,Bob;") (py "ROK;")
           (State example_catalog [py "alice"; py "bob"])).
  reflexivity.
Defined.




Section ReplyAtClient.

Variable isalnum_cp : Z -> bool.
Variable lower : str -> str.

(** X5: a request that names REG or UNR but has not exactly two fields,
    or whose second field does not end in [;], and a request that names
    QUO but has fewer than three fields or does not end in [;], is
    answered INP and changes nothing. *)
Theorem wrong_shape_INP st raw data :
  decode raw = Ok data ->
  (item (split COMMA data) 0 ∈ [REG; UNR]
   /\ (length (split COMMA data) <> REG_FIELDS
       \/ endswith (item (split COMMA data) 1) SEMI = false))
  \/ (item (split COMMA data) 0 = QUO
      /\ ((length (split COMMA data) < QUOTE_FIELDS)%nat
          \/ endswith data SEMI = false)) ->
  serve_once isalnum_cp lower st raw = Sent (INP ++ [SEMI]) st.
Proof.
  intros Hdec Hshape. unfold serve_once. rewrite Hdec.
  unfold handle. cbv zeta.
  destruct Hshape as [[Hcmd Hbad]|[Hcmd Hbad]].
  - assert (H3 : str_in (item (split COMMA data) 0) [REG; UNR; QUO] = true).
    { apply str_in_true. apply elem_of_cons in Hcmd as [->|Hcmd];
        [|apply list_elem_of_singleton in Hcmd as ->]; decide_now. }
    assert (HQ : str_eqb (item (split COMMA data) 0) QUO = false).
    { apply elem_of_cons in Hcmd as [->|Hcmd];
        [|apply list_elem_of_singleton in Hcmd as ->]; reflexivity. }
    rewrite H3, HQ. cbn [negb]. rewrite andb_false_r. cbn [andb].
    destruct Hbad as [Hlen|Hend].
    + apply Nat.eqb_neq in Hlen. rewrite Hlen. by bp_simpl.
    + rewrite Hend, andb_false_r. by bp_simpl.
  - rewrite Hcmd.
    change (str_in QUO [REG; UNR; QUO]) with true.
    change (str_in QUO [REG; UNR]) with false.
    rewrite andb_false_r. cbn [negb andb].
    destruct Hbad as [Hlen|Hend].
    + apply Nat.leb_gt in Hlen. rewrite Hlen. by bp_simpl.
    + rewrite Hend, andb_false_r. by bp_simpl.
Qed.


End ReplyAtClient.

Lemma wrong_shape_INP_witness :
  serve_once ascii_isalnum_cp ascii_lower (State example_catalog [])
    (py "REG,alice,extra;")
  = Sent (py "INP;") (State example_catalog []).
Proof.
  apply (wrong_shape_INP ascii_isalnum_cp ascii_lower
           (State example_catalog []) (py "REG,alice,extra;")
           (py "REG,alice,extra;")).
  - reflexivity.
  - left. split; [decide_now|]. left. vm_compute. lia.
Defined.


(** ** More on the server: the ticker pattern *)

Ltac inv_lang :=
  repeat match goal with
         | H : lang upper _ |- _ => unfold upper in H
         | H : lang (Seq _ _) _ |- _ => inversion H; subst; clear H
         | H : lang (Alt _ _) _ |- _ => inversion H; subst; clear H
         | H : lang Eps _ |- _ => inversion H; subst; clear H
         | H : lang (Range _ _) _ |- _ => inversion H; subst; clear H
         | H : lang (Chr _) _ |- _ => inversion H; subst; clear H
         end.

Lemma lang_is_ticker t : lang (rep_2_5 upper) t -> is_ticker t.
Proof.
  unfold rep_2_5. intros H. inv_lang; simpl;
    (split; [simpl; lia | repeat constructor; lia]).
Qed.

Lemma lang_star_tickers p :
  lang (Star (Seq (rep_2_5 upper) (Chr COMMA))) p ->
  exists ts, Forall is_ticker ts
             /\ p = concat (map (fun t => t ++ [COMMA]) ts).
Proof.
  intros H. remember (Star (Seq (rep_2_5 upper) (Chr COMMA))) as r eqn:Hr.
  induction H as [| | | | | | |r0 s1 s2 H1 _ H2 IH2]; try done.
  - by exists [].
  - injection Hr as ->. destruct IH2 as (ts & Hts & ->); [done|].
    inversion H1 as [| | |? ? t c Ht Hc| | | |]; subst.
    inversion Hc; subst.
    exists (t :: ts). split; [|done].
    constructor; [by apply lang_is_ticker | done].
Qed.

Lemma join_cons_nonempty sep x l :
  l <> [] -> join sep (x :: l) = x ++ sep ++ join sep l.
Proof. by destruct l. Qed.

Lemma join_snoc ts t :
  join [COMMA] (ts ++ [t]) = concat (map (fun x => x ++ [COMMA]) ts) ++ t.
Proof.
  induction ts as [|x ts IH]; [done|].
  change ((x :: ts) ++ [t]) with (x :: (ts ++ [t])).
  rewrite join_cons_nonempty by (by destruct ts).
  rewrite IH. simpl. by rewrite <- !app_assoc.
Qed.

Lemma lang_tickers s :
  lang quotes_re s ->
  exists ts, ts <> [] /\ Forall is_ticker ts /\ s = join [COMMA] ts.
Proof.
  unfold quotes_re. intros H.
  inversion H as [| | |? ? p t Hp Ht| | | |]; subst.
  apply lang_star_tickers in Hp as (ts & Hts & ->).
  exists (ts ++ [t]). split; [by destruct ts|]. split.
  - apply Forall_app. split; [done|].
    constructor; [by apply lang_is_ticker | constructor].
  - by rewrite join_snoc.
Qed.

Lemma endswith_strip s c : endswith s c = true -> s = strip_last s ++ [c].
Proof.
  unfold endswith. destruct (last s) as [d|] eqn:E; [|done].
  intros ->%Z.eqb_eq. apply last_Some in E as [l ->].
  by rewrite strip_last_snoc.
Qed.

(** X7: the check [re.match(r"^([A-Z]{2,5},)*[A-Z]{2,5}$", s)] succeeds
    exactly on the comma-separated lists of one or more tickers, and on
    such a list followed by one newline. *)
Theorem quotes_pattern_accepts s :
  re_match_anchored quotes_re s = true
  <-> exists ts, ts <> [] /\ Forall is_ticker ts
                 /\ (s = join [COMMA] ts \/ s = join [COMMA] ts ++ [NEWLINE]).
Proof.
  unfold re_match_anchored. rewrite orb_true_iff, andb_true_iff. split.
  - intros [H|[Hend H]].
    + apply fullmatch_lang, lang_tickers in H as (ts & Hne & Hts & ->).
      exists ts. by repeat split; [..|left].
    + apply fullmatch_lang, lang_tickers in H as (ts & Hne & Hts & Hs).
      exists ts. repeat split; [done..|]. right.
      rewrite <- Hs. by apply endswith_strip.
  - intros (ts & Hne & Hts & [->| ->]).
    + left. by apply fullmatch_lang, tickers_lang.
    + right. rewrite endswith_snoc, strip_last_snoc. split; [done|].
      by apply fullmatch_lang, tickers_lang.
Qed.

(** ** Loading the catalog *)

Lemma span_spec p s a b :
  Loader.span p s = (a, b) ->
  s = a ++ b /\ Forall (fun c => p c = true) a.
Proof.
  revert a b. induction s as [|c s IH]; intros a b; simpl.
  - by intros [= <- <-].
  - destruct (p c) eqn:Hc.
    + destruct (Loader.span p s) as [a' b'].
      intros [= <- <-]. destruct (IH a' b' eq_refl) as [-> Ha].
      split; [done | by constructor].
    + by intros [= <- <-].
Qed.

Lemma span_app p a c b :
  Forall (fun x => p x = true) a -> p c = false ->
  Loader.span p (a ++ c :: b) = (a, c :: b).
Proof.
  intros Ha Hc. induction Ha as [|x a Hx Ha IH]; simpl.
  - by rewrite Hc.
  - by rewrite Hx, IH.
Qed.

Lemma is_upper_spec c : Loader.is_upper c = true <-> 65 <= c <= 90.
Proof. unfold Loader.is_upper. bool_to_prop. lia. Qed.

Section LoaderFacts.

Variable isdigit_cp : Z -> bool.

Lemma match_stock_line_sound line name price :
  Loader.match_stock_line isdigit_cp line = Some (name, price) ->
  Loader.name_shape name /\ Loader.price_shape isdigit_cp price
  /\ exists rest, line = name ++ [Loader.SPACE] ++ price ++ rest.
Proof.
  unfold Loader.match_stock_line.
  destruct (Loader.span Loader.is_upper line) as [n r1] eqn:E1.
  apply span_spec in E1 as [-> Hn].
  destruct n as [|n0 n]; [done|]. destruct r1 as [|sp r2]; [done|].
  destruct (Z.eqb_spec sp Loader.SPACE) as [->|]; [|done].
  destruct (Loader.span isdigit_cp r2) as [w r3] eqn:E2.
  apply span_spec in E2 as [-> Hw].
  destruct w as [|w0 w]; [done|].
  destruct r3 as [|dot [|d1 [|d2 rest]]]; try done.
  destruct (Z.eqb_spec dot Loader.DOT) as [->|]; [|done].
  destruct (isdigit_cp d1) eqn:H1; [|done].
  destruct (isdigit_cp d2) eqn:H2; [|done].
  cbn [andb]. intros [= <- <-]. split; [|split].
  - split; [done|]. eapply Forall_impl; [exact Hn|].
    intros c. apply is_upper_spec.
  - exists (w0 :: w), d1, d2. split; [done|]. split; [done|].
    apply Forall_app. split; [done|]. by repeat constructor.
  - exists rest. simpl. by rewrite <- (app_assoc w).
Qed.

Section DotIsNoDigit.

Hypothesis dot_not_digit : isdigit_cp Loader.DOT = false.

Lemma match_stock_line_complete name price rest :
  Loader.name_shape name ->
  Loader.price_shape isdigit_cp price ->
  Loader.match_stock_line isdigit_cp
    (name ++ [Loader.SPACE] ++ price ++ rest) = Some (name, price).
Proof.
  intros [Hne Hup] (w & d1 & d2 & -> & Hw & Hd).
  apply Forall_app in Hd as [Hdw Hd12].
  apply Forall_cons in Hd12 as [H1 Hd2]. apply Forall_cons in Hd2 as [H2 _].
  unfold Loader.match_stock_line.
  change (name ++ [Loader.SPACE] ++ (w ++ [Loader.DOT; d1; d2]) ++ rest)
    with (name ++ Loader.SPACE :: ((w ++ [Loader.DOT; d1; d2]) ++ rest)).
  rewrite span_app; [|eapply Forall_impl; [exact Hup|];
                      intros c; apply is_upper_spec | reflexivity].
  destruct name as [|n0 name]; [done|].
  rewrite Z.eqb_refl.
  replace ((w ++ [Loader.DOT; d1; d2]) ++ rest)
    with (w ++ Loader.DOT :: d1 :: d2 :: rest) by (by rewrite <- app_assoc).
  rewrite span_app by done.
  destruct w as [|w0 w]; [done|].
  by rewrite Z.eqb_refl, H1, H2.
Qed.

(** X8: a line of the stock file gives an entry exactly when it starts
    with one or more letters [A] to [Z], one space, one or more digits, a
    dot and two digits; the entry is that name and that price, and
    whatever follows on the line is ignored. *)
Theorem stock_line_entry line name price :
  Loader.match_stock_line isdigit_cp line = Some (name, price)
  <-> Loader.name_shape name /\ Loader.price_shape isdigit_cp price
      /\ exists rest, line = name ++ [Loader.SPACE] ++ price ++ rest.
Proof.
  split; [apply match_stock_line_sound|].
  intros (Hn & Hp & rest & ->). by apply match_stock_line_complete.
Qed.

End DotIsNoDigit.

(** Where the value of a name comes from: the dictionary the loop began
    with, or the last line that names it. *)
Lemma load_lines_not_named lines d t :
  (forall line p, line ∈ lines ->
     Loader.match_stock_line isdigit_cp line <> Some (t, p)) ->
  Loader.load_lines isdigit_cp lines d !! t = d !! t.
Proof.
  revert d. induction lines as [|line lines IH]; intros d Hno; [done|].
  simpl.
  destruct (Loader.match_stock_line isdigit_cp line) as [[n p]|] eqn:E.
  - rewrite IH by (intros l q Hl; apply Hno; by right).
    apply lookup_insert_ne. intros ->. by apply (Hno line p); [left|].
  - apply IH. intros l q Hl. apply Hno. by right.
Qed.

Lemma load_lines_app l1 l2 d :
  Loader.load_lines isdigit_cp (l1 ++ l2) d
  = Loader.load_lines isdigit_cp l2 (Loader.load_lines isdigit_cp l1 d).
Proof.
  revert d. induction l1 as [|line l1 IH]; intros d; [done|]. simpl.
  by destruct (Loader.match_stock_line isdigit_cp line) as [[n p]|].
Qed.

(** X9: when the same name stands on several lines of the stock file,
    the price of the last of them is the one in the catalog. *)
Theorem last_line_wins l1 line l2 t p :
  Loader.match_stock_line isdigit_cp line = Some (t, p) ->
  (forall l q, l ∈ l2 ->
     Loader.match_stock_line isdigit_cp l <> Some (t, q)) ->
  exists d,
    Loader.loadStockDict isdigit_cp (Loader.Content (l1 ++ line :: l2))
    = Some d
    /\ d !! t = Some p.
Proof.
  intros Hline Hl2. eexists. split; [reflexivity|].
  rewrite load_lines_app. simpl. rewrite Hline.
  rewrite load_lines_not_named by done. apply lookup_insert_eq.
Qed.

(** Every entry of the catalog was read from a line of the file. *)
Lemma load_lines_from_line lines d t p :
  Loader.load_lines isdigit_cp lines d !! t = Some p ->
  d !! t = Some p
  \/ exists line, line ∈ lines
       /\ Loader.match_stock_line isdigit_cp line = Some (t, p).
Proof.
  revert d. induction lines as [|line lines IH]; intros d; simpl;
    [by left|].
  destruct (Loader.match_stock_line isdigit_cp line) as [[n q]|] eqn:E.
  - intros [H|(l & Hl & Hm)]%IH.
    + destruct (decide (n = t)) as [->|Hne].
      * rewrite lookup_insert_eq in H. injection H as ->.
        right. exists line. split; [by left | done].
      * rewrite lookup_insert_ne in H by done. by left.
    + right. exists l. split; [by right | done].
  - intros [H|(l & Hl & Hm)]%IH; [by left|].
    right. exists l. split; [by right | done].
Qed.





Section DigitsAreNoSeparators.

Hypothesis digit_not_sep :
  forall c, isdigit_cp c = true -> c <> COMMA /\ c <> SEMI.

Lemma price_shape_sep_free p :
  Loader.price_shape isdigit_cp p -> sep_free p /\ p <> BAD_STOCK.
Proof.
  intros (w & d1 & d2 & -> & Hw & Hd).
  assert (Hall : Forall (fun c => c <> COMMA /\ c <> SEMI)
                        (w ++ [Loader.DOT; d1; d2])).
  { apply Forall_app in Hd as [Hdw Hd12].
    apply Forall_app. split.
    - eapply Forall_impl; [exact Hdw | apply digit_not_sep].
    - constructor; [done|].
      eapply Forall_impl; [exact Hd12 | apply digit_not_sep]. }
  rewrite Forall_forall in Hall. split; [split|].
  - intros Hin. by destruct (Hall _ Hin).
  - intros Hin. by destruct (Hall _ Hin).
  - intros Heq. apply (f_equal length) in Heq.
    rewrite length_app in Heq. simpl in Heq. lia.
Qed.

(** X11: a catalog loaded from a file whose lines are text that can be
    encoded is fit for the protocol: every name in it is made of letters
    [A] to [Z], every price is digits, a dot and two digits, holds no
    comma and no [;], can be put into a packet, and is never the
    [-1] that stands for a stock that does not exist. *)
Theorem loaded_catalog_fit lines d :
  Forall encodable lines ->
  Loader.loadStockDict isdigit_cp (Loader.Content lines) = Some d ->
  catalog_encodable d
  /\ forall t p, d !! t = Some p ->
       Loader.name_shape t /\ Loader.price_shape isdigit_cp p
       /\ sep_free p /\ p <> BAD_STOCK.
Proof.
  intros Henc [= <-].
  assert (Hfrom : forall t p,
            Loader.load_lines isdigit_cp lines ∅ !! t = Some p ->
            exists line, line ∈ lines
              /\ Loader.match_stock_line isdigit_cp line = Some (t, p)).
  { intros t p [H|H]%load_lines_from_line; [|done].
    by rewrite lookup_empty in H. }
  split.
  - intros t p (line & Hl & Hm)%Hfrom.
    apply match_stock_line_sound in Hm as (_ & _ & rest & ->).
    rewrite Forall_forall in Henc. apply Henc in Hl.
    rewrite !encodable_app in Hl. tauto.
  - intros t p (line & Hl & Hm)%Hfrom.
    apply match_stock_line_sound in Hm as (Hn & Hp & _).
    destruct (price_shape_sep_free p Hp). done.
Qed.

End DigitsAreNoSeparators.

End LoaderFacts.

(** *** The loader on ASCII text *)

Lemma ascii_digit_not_sep c :
  Loader.ascii_isdigit_cp c = true -> c <> COMMA /\ c <> SEMI.
Proof.
  unfold Loader.ascii_isdigit_cp, COMMA, SEMI. bool_to_prop. lia.
Qed.

Lemma stock_line_entry_witness :
  Loader.match_stock_line Loader.ascii_isdigit_cp
    (py "IBM 121.119 and more") = Some (py "IBM", py "121.11")
  <-> Loader.name_shape (py "IBM")
      /\ Loader.price_shape Loader.ascii_isdigit_cp (py "121.11")
      /\ exists rest,
           py "IBM 121.119 and more"
           = py "IBM" ++ [Loader.SPACE] ++ py "121.11" ++ rest.
Proof.
  apply (stock_line_entry Loader.ascii_isdigit_cp).
  reflexivity.
Defined.

Lemma last_line_wins_witness :
  exists d,
    Loader.loadStockDict Loader.ascii_isdigit_cp
      (Loader.Content ([py "IBM 121.11"; py "FB 23.22"]
                       ++ py "IBM 99.90" :: [py "CSCO 43.33"]))
    = Some d
    /\ d !! py "IBM" = Some (py "99.90").
Proof.
  apply (last_line_wins Loader.ascii_isdigit_cp
           [py "IBM 121.11"; py "FB 23.22"] (py "IBM 99.90")
           [py "CSCO 43.33"] (py "IBM") (py "99.90")).
  - reflexivity.
  - intros l q Hl. apply list_elem_of_singleton in Hl as ->.
    vm_compute. discriminate.
Defined.

Lemma loaded_catalog_fit_witness :
  catalog_encodable
    (Loader.load_lines Loader.ascii_isdigit_cp
       [py "IBM 121.11"; py "FB 23.22"] ∅).
Proof.
  apply (loaded_catalog_fit Loader.ascii_isdigit_cp ascii_digit_not_sep
           [py "IBM 121.11"; py "FB 23.22"]).
  - repeat constructor; by eexists.
  - reflexivity.
Defined.

Example example_stock_file_loaded :
  Loader.start Loader.ascii_isdigit_cp Loader.example_stock_file
  = Loader.Serves
      (State (list_to_map [(py "IBM", py "99.90"); (py "FB", py "23.22")]) []).
Proof. vm_compute. reflexivity. Qed.

(** ** The server from its start *)

Section Started.

Variable isalnum_cp : Z -> bool.
Variable lower : str -> str.
Variable isdigit_cp : Z -> bool.



End Started.


(** ** A quote, from the client's menu to the lines it prints *)

Lemma join_last_snoc sep ts t c :
  join sep (ts ++ [t ++ [c]]) = join sep (ts ++ [t]) ++ [c].
Proof.
  induction ts as [|x ts IH]; [done|].
  change ((x :: ts) ++ [t ++ [c]]) with (x :: (ts ++ [t ++ [c]])).
  change ((x :: ts) ++ [t]) with (x :: (ts ++ [t])).
  rewrite !join_cons_nonempty by (by destruct ts).
  by rewrite IH, <- !app_assoc.
Qed.


Section QuoteEndToEnd.

Variable isalnum_cp : Z -> bool.
Variable lower : str -> str.



End QuoteEndToEnd.


(** ** More on the retry loop *)

Lemma retry_loop_more_fuel out_pkt quote_csv net fuel attempts r :
  Client.retry_loop out_pkt quote_csv net fuel attempts = Some r ->
  Client.retry_loop out_pkt quote_csv net (S fuel) attempts = Some r.
Proof.
  revert attempts r. induction fuel as [|fuel IH]; intros attempts r; [done|].
  cbn [Client.retry_loop].
  destruct (attempts <? Client.ATTEMPT_LIMIT)%nat; [|done].
  destruct (net attempts) as [raw| |err]; try done.
  destruct (Client.retry_loop out_pkt quote_csv net fuel (attempts + 1))
    as [[evs e]|] eqn:E; [|done].
  apply IH in E. cbn [Client.retry_loop] in E. by rewrite E.
Qed.

Lemma retry_loop_fuel_enough out_pkt quote_csv net fuel fuel' attempts r :
  (fuel <= fuel')%nat ->
  Client.retry_loop out_pkt quote_csv net fuel attempts = Some r ->
  Client.retry_loop out_pkt quote_csv net fuel' attempts = Some r.
Proof.
  induction 1 as [|fuel' Hle IH]; [done|].
  intros H. by apply retry_loop_more_fuel, IH.
Qed.

Lemma retry_loop_first_send out_pkt quote_csv net fuel evs e :
  Client.retry_loop out_pkt quote_csv net fuel 0 = Some (evs, e) ->
  exists evs', evs = Client.Send out_pkt :: evs'.
Proof.
  destruct fuel as [|fuel]; [done|].
  cbn [Client.retry_loop Nat.ltb Nat.leb Client.ATTEMPT_LIMIT].
  destruct (net 0%nat) as [raw| |err].
  - destruct (Client.handle_reply quote_csv raw). intros [= <- _].
    by eexists.
  - destruct (Client.retry_loop out_pkt quote_csv net fuel (0 + 1))
      as [[evs1 e1]|]; [|done].
    intros [= <- _]. by eexists.
  - intros [= <- _]. by eexists.
Qed.

(** X14: every user action ends, whatever the network does: the loop
    sends the packet at least once and at most three times, always the
    same bytes, and fuel beyond the four turns of the loop changes
    nothing. *)
Theorem action_always_ends out_pkt quote_csv net :
  exists evs e n,
    (forall fuel, (Client.ATTEMPT_LIMIT < fuel)%nat ->
       Client.action out_pkt quote_csv net fuel = Some (evs, e))
    /\ (1 <= n <= Client.ATTEMPT_LIMIT)%nat
    /\ Client.sends evs = repeat out_pkt n.
Proof.
  destruct (retry_loop_total out_pkt quote_csv net
              (S Client.ATTEMPT_LIMIT) 0%nat) as [[evs e] Hr];
    [unfold Client.ATTEMPT_LIMIT; lia|].
  destruct (retry_loop_sends _ _ _ _ _ _ _ Hr) as (n & Hn & Hs).
  exists evs, e, n. split; [|split; [split|]]; [| |lia|done].
  - intros fuel Hf. unfold Client.action.
    eapply retry_loop_fuel_enough; [|exact Hr]. lia.
  - destruct n; [|lia]. exfalso.
    apply retry_loop_first_send in Hr as [evs' ->]. done.
Qed.

(** X15: when the first [k] attempts time out, with [k] less than three,
    and the next one is answered, the client has sent the packet [k + 1]
    times, printed the retry line [k] times, handles that reply and tries
    no more. *)
Theorem reply_after_timeouts out_pkt quote_csv net k raw fuel :
  (k < Client.ATTEMPT_LIMIT)%nat ->
  (forall i, (i < k)%nat -> net i = Client.Timeout) ->
  net k = Client.Reply raw ->
  (Client.ATTEMPT_LIMIT < fuel)%nat ->
  Client.action out_pkt quote_csv net fuel
  = Some (concat (repeat [Client.Send out_pkt; Session.retry_line] k)
          ++ Client.Send out_pkt
             :: map Client.Print (Client.handle_reply quote_csv raw).1,
          match (Client.handle_reply quote_csv raw).2 with
          | None => Client.Done
          | Some x => Client.Uncaught x
          end).
Proof.
  intros Hk Hto Hrep Hf. unfold Client.action.
  apply (retry_loop_fuel_enough _ _ _ (S Client.ATTEMPT_LIMIT)); [lia|].
  unfold Client.ATTEMPT_LIMIT in *.
  destruct (Client.handle_reply quote_csv raw) as [lines e] eqn:Hh.
  destruct k as [|[|[|k]]]; [| | |lia].
  - cbn [Client.retry_loop Nat.ltb Nat.leb Client.ATTEMPT_LIMIT].
    by rewrite Hrep, Hh.
  - cbn [Client.retry_loop Nat.ltb Nat.leb Nat.add Client.ATTEMPT_LIMIT].
    rewrite (Hto 0%nat) by lia.
    cbn [Client.retry_loop Nat.ltb Nat.leb Nat.add Client.ATTEMPT_LIMIT].
    by rewrite Hrep, Hh.
  - cbn [Client.retry_loop Nat.ltb Nat.leb Nat.add Client.ATTEMPT_LIMIT].
    rewrite (Hto 0%nat) by lia.
    cbn [Client.retry_loop Nat.ltb Nat.leb Nat.add Client.ATTEMPT_LIMIT].
    rewrite (Hto 1%nat) by lia.
    cbn [Client.retry_loop Nat.ltb Nat.leb Nat.add Client.ATTEMPT_LIMIT].
    by rewrite Hrep, Hh.
Qed.

(** X16: a socket error that is not a timeout, after [k] attempts that
    timed out, with [k] less than three, ends the client through
    [sys.exit(-1)]: the packet was sent [k + 1] times, the error is
    printed, and nothing more is sent. *)
Theorem socket_error_exits out_pkt quote_csv net k s_err fuel :
  (k < Client.ATTEMPT_LIMIT)%nat ->
  (forall i, (i < k)%nat -> net i = Client.Timeout) ->
  net k = Client.SocketError s_err ->
  (Client.ATTEMPT_LIMIT < fuel)%nat ->
  Client.action out_pkt quote_csv net fuel
  = Some (concat (repeat [Client.Send out_pkt; Session.retry_line] k)
          ++ [Client.Send out_pkt;
              Client.Print (py "Socket error!" ++ [NEWLINE; 32] ++ s_err)],
          Client.SysExit (-1)).
Proof.
  intros Hk Hto Herr Hf. unfold Client.action.
  apply (retry_loop_fuel_enough _ _ _ (S Client.ATTEMPT_LIMIT)); [lia|].
  unfold Client.ATTEMPT_LIMIT in *.
  destruct k as [|[|[|k]]]; [| | |lia].
  - cbn [Client.retry_loop Nat.ltb Nat.leb Client.ATTEMPT_LIMIT].
    by rewrite Herr.
  - cbn [Client.retry_loop Nat.ltb Nat.leb Nat.add Client.ATTEMPT_LIMIT].
    rewrite (Hto 0%nat) by lia.
    cbn [Client.retry_loop Nat.ltb Nat.leb Nat.add Client.ATTEMPT_LIMIT].
    by rewrite Herr.
  - cbn [Client.retry_loop Nat.ltb Nat.leb Nat.add Client.ATTEMPT_LIMIT].
    rewrite (Hto 0%nat) by lia.
    cbn [Client.retry_loop Nat.ltb Nat.leb Nat.add Client.ATTEMPT_LIMIT].
    rewrite (Hto 1%nat) by lia.
    cbn [Client.retry_loop Nat.ltb Nat.leb Nat.add Client.ATTEMPT_LIMIT].
    by rewrite Herr.
Qed.

(** X17: a reply with a known code and more than one field, in an
    action that has no stock names (registering, unregistering, or a
    packet sent again after a choice the menu does not know), prints the
    meaning of the code and then raises [AttributeError], which nothing
    catches. *)
Theorem prices_without_names_raise out_pkt net fuel raw code f fs meaning :
  net 0%nat = Client.Reply raw ->
  Client.reply_fields raw = Ok (code :: f :: fs) ->
  Client.response_codes !! code = Some meaning ->
  (0 < fuel)%nat ->
  Client.action out_pkt None net fuel
  = Some ([Client.Send out_pkt; Client.Print meaning],
          Client.Uncaught AttributeError).
Proof.
  intros Hnet Hf Hc Hfuel. destruct fuel as [|fuel]; [lia|].
  unfold Client.action.
  cbn [Client.retry_loop Nat.ltb Nat.leb Client.ATTEMPT_LIMIT].
  rewrite Hnet. unfold Client.handle_reply. rewrite Hf.
  cbn [item nth]. by rewrite Hc.
Qed.

Lemma reply_after_timeouts_witness :
  Client.action (py "REG,alice;") None
    (fun i => if (i <? 2)%nat then Client.Timeout
              else Client.Reply (py "ROK;")) 4
  = Some ([Client.Send (py "REG,alice;"); Session.retry_line;
           Client.Send (py "REG,alice;"); Session.retry_line;
           Client.Send (py "REG,alice;"); Client.Print (py "Request OK")],
          Client.Done).
Proof.
  apply (reply_after_timeouts (py "REG,alice;") None
           (fun i => if (i <? 2)%nat then Client.Timeout
                     else Client.Reply (py "ROK;")) 2 (py "ROK;") 4).
  - vm_compute. lia.
  - intros i Hi. destruct i as [|[|i]]; [reflexivity | reflexivity | lia].
  - reflexivity.
  - vm_compute. lia.
Defined.

Lemma socket_error_exits_witness :
  Client.action (py "REG,alice;") None
    (fun i => if (i <? 1)%nat then Client.Timeout
              else Client.SocketError (py "refused")) 4
  = Some ([Client.Send (py "REG,alice;"); Session.retry_line;
           Client.Send (py "REG,alice;");
           Client.Print (py "Socket error!" ++ [NEWLINE; 32] ++ py "refused")],
          Client.SysExit (-1)).
Proof.
  apply (socket_error_exits (py "REG,alice;") None
           (fun i => if (i <? 1)%nat then Client.Timeout
                     else Client.SocketError (py "refused"))
           1 (py "refused") 4).
  - vm_compute. lia.
  - intros i Hi. destruct i as [|i]; [reflexivity | lia].
  - reflexivity.
  - vm_compute. lia.
Defined.

Lemma prices_without_names_raise_witness :
  Client.action (py "REG,alice;") None
    (fun _ => Client.Reply (py "ROK,121.11;")) 4
  = Some ([Client.Send (py "REG,alice;"); Client.Print (py "Request OK")],
          Client.Uncaught AttributeError).
Proof.
  apply (prices_without_names_raise (py "REG,alice;")
           (fun _ => Client.Reply (py "ROK,121.11;")) 4 (py "ROK,121.11;")
           (py "ROK") (py "121.11") []).
  - reflexivity.
  - reflexivity.
  - reflexivity.
  - lia.
Defined.

(** ** The menu *)

Lemma occurs_in_pair a b choice :
  Session.occurs_in choice [a; b] = true
  <-> choice ∈ [[]; [a]; [b]; [a; b]].
Proof.
  rewrite !elem_of_cons, elem_of_nil.
  destruct choice as [|x [|y [|z t]]]; simpl.
  - intuition.
  - destruct (Z.eqb_spec x a), (Z.eqb_spec x b);
      simpl; intuition congruence.
  - destruct (Z.eqb_spec x a), (Z.eqb_spec y b), (Z.eqb_spec x b);
      simpl; intuition congruence.
  - destruct (x =? a), (y =? b), (x =? b); simpl; intuition congruence.
Qed.

Lemma selects_pair a b choice :
  Session.occurs_in choice [a; b] && Session.nonempty choice = true
  <-> choice ∈ [[a]; [b]; [a; b]].
Proof.
  rewrite andb_true_iff, occurs_in_pair, !elem_of_cons, elem_of_nil.
  destruct choice; simpl; intuition congruence.
Qed.

Lemma selects_pair_false a b choice :
  choice ∉ [[a]; [b]; [a; b]] ->
  Session.occurs_in choice [a; b] && Session.nonempty choice = false.
Proof.
  intros H. apply not_true_is_false. by rewrite selects_pair.
Qed.

Lemma built_not_Leave r q rest : Session.built r q rest <> Session.Leave.
Proof. by destruct r. Qed.

(** X18: the client leaves its loop exactly on the empty choice and on
    the choices [e], [E] and [eE]. *)
Theorem menu_leaves debug_mode out_pkt choice rest :
  Session.menu debug_mode out_pkt (choice :: rest) = Session.Leave
  <-> choice ∈ [[]; py "e"; py "E"; py "eE"].
Proof.
  split.
  - unfold Session.menu.
    repeat match goal with
           | |- context [if ?b then _ else _] => destruct b eqn:?
           | |- context [match ?l with [] => _ | _ :: _ => _ end] =>
               destruct l
           end;
      try done; try (by intros ?%built_not_Leave).
    intros _.
    match goal with
    | H : _ || _ = true |- _ => apply orb_true_iff in H as [Hocc|Hemp]
    end.
    + by apply occurs_in_pair in Hocc.
    + destruct choice; [by left | done].
  - intros H.
    repeat (apply elem_of_cons in H as [->|H];
            [by destruct debug_mode|]).
    by apply not_elem_of_nil in H.
Qed.

(** X19: a choice that is none of the menu's (and [d], [D], [dD] count
    only in debug mode) is not asked again: the turn goes on to the retry
    loop with the packet of the turn before and without stock names. When
    there is a packet from before, it is sent again; when there is none,
    the send raises [TypeError] before anything is sent. *)
Theorem unknown_choice_resends debug_mode out_pkt choice rest net fuel :
  choice ∉ [ []; py "r"; py "R"; py "rR"; py "u"; py "U"; py "uU";
             py "q"; py "Q"; py "qQ"; py "e"; py "E"; py "eE" ] ->
  debug_mode = false \/ choice ∉ [py "d"; py "D"; py "dD"] ->
  Session.menu debug_mode out_pkt (choice :: rest)
  = Session.Proceed out_pkt None rest
  /\ Session.one_turn debug_mode None (choice :: rest) net fuel
     = Some ([], Session.Uncaught Session.TypeError)
  /\ forall pkt,
       (Client.ATTEMPT_LIMIT < fuel)%nat ->
       exists evs t,
         Session.one_turn debug_mode (Some pkt) (choice :: rest) net fuel
         = Some (Client.Send pkt :: evs, t).
Proof.
  intros Hno Hd.
  assert (Hmenu : forall o,
            Session.menu debug_mode o (choice :: rest)
            = Session.Proceed o None rest).
  { intros o. unfold Session.menu.
    rewrite !not_elem_of_cons in Hno.
    destruct Hno as (H0 & Hr1 & Hr2 & Hr3 & Hu1 & Hu2 & Hu3 & Hq1 & Hq2 & Hq3
                     & He1 & He2 & He3 & _).
    change (py "rR") with [114; 82]. change (py "uU") with [117; 85].
    change (py "qQ") with [113; 81]. change (py "dD") with [100; 68].
    change (py "eE") with [101; 69].
    rewrite !selects_pair_false
      by (rewrite !not_elem_of_cons; repeat split; try done;
          apply not_elem_of_nil).
    assert (Hdbg : Session.occurs_in choice [100; 68] && debug_mode
                   && Session.nonempty choice = false).
    { destruct Hd as [->|Hd]; [by rewrite andb_false_r|].
      rewrite <- andb_assoc, (andb_comm debug_mode), andb_assoc.
      rewrite selects_pair_false; [done|]. exact Hd. }
    rewrite Hdbg.
    assert (He : Session.occurs_in choice [101; 69] = false).
    { apply not_true_is_false. rewrite occurs_in_pair, !elem_of_cons.
      intros [?|[?|[?|[?|?%elem_of_nil]]]]; done. }
    rewrite He. by destruct choice. }
  split; [apply Hmenu|]. split.
  - unfold Session.one_turn. by rewrite Hmenu.
  - intros pkt Hf. unfold Session.one_turn. rewrite Hmenu.
    destruct (retry_loop_total pkt None net fuel 0%nat) as [[evs e] Hr];
      [lia|].
    unfold Client.action. rewrite Hr.
    apply retry_loop_first_send in Hr as [evs' ->].
    destruct e; by eexists _, _.
Qed.

Lemma unknown_choice_resends_witness :
  Session.menu false (Some (py "QUO,alice,IBM;")) [py "d"; py "r"]
  = Session.Proceed (Some (py "QUO,alice,IBM;")) None [py "r"]
  /\ Session.one_turn false None [py "d"; py "r"] (fun _ => Client.Timeout) 4
     = Some ([], Session.Uncaught Session.TypeError)
  /\ forall pkt,
       (Client.ATTEMPT_LIMIT < 4)%nat ->
       exists evs t,
         Session.one_turn false (Some pkt) [py "d"; py "r"]
           (fun _ => Client.Timeout) 4
         = Some (Client.Send pkt :: evs, t).
Proof.
  apply (unknown_choice_resends false (Some (py "QUO,alice,IBM;")) (py "d")
           [py "r"] (fun _ => Client.Timeout) 4).
  - decide_now.
  - by left.
Defined.

(** ** Catalog names the quote grammar does not reach *)

(** X20: the loader takes names of any length, the quote check only
    names of two to five letters: a name made of letters [A] to [Z] that
    is shorter than two or longer than five is never among the names the
    server looks up for a ticker text that passed the check. *)
Theorem odd_length_names_never_looked_up s t :
  re_match_anchored quotes_re s = true ->
  Forall (fun c => 65 <= c <= 90) t ->
  ~ (2 <= length t <= 5)%nat ->
  t ∉ split COMMA s.
Proof.
  intros Hm Hup Hlen Hin.
  assert (Hticker : forall ts, Forall is_ticker ts -> t ∉ ts).
  { intros ts Hts Ht. rewrite Forall_forall in Hts.
    destruct (Hts t Ht) as [Hl _]. done. }
  unfold re_match_anchored in Hm.
  apply orb_true_iff in Hm as [Hm|[Hend Hm]%andb_true_iff].
  - apply fullmatch_lang, lang_tickers in Hm as (ts & Hne & Hts & ->).
    rewrite split_join in Hin; [by apply (Hticker ts)|done|].
    eapply Forall_impl; [exact Hts|]. apply is_ticker_no_comma.
  - apply fullmatch_lang, lang_tickers in Hm as (ts & Hne & Hts & Hs).
    apply endswith_strip in Hend. rewrite Hs in Hend.
    destruct (exists_last Hne) as (ts0 & tl & ->).
    rewrite <- join_last_snoc in Hend. rewrite Hend in Hin.
    apply Forall_app in Hts as [Hts0 Htl].
    apply Forall_cons in Htl as [Htl _].
    rewrite split_join in Hin.
    + apply elem_of_app in Hin as [Hin|Hin]; [by apply (Hticker ts0)|].
      apply list_elem_of_singleton in Hin. subst t.
      apply Forall_app in Hup as [_ Hnl].
      apply Forall_cons in Hnl as [Hnl _]. unfold NEWLINE in Hnl. lia.
    + by destruct ts0.
    + apply Forall_app. split.
      * eapply Forall_impl; [exact Hts0|]. apply is_ticker_no_comma.
      * constructor; [|constructor]. apply not_elem_of_app.
        split; [by apply is_ticker_no_comma | decide_now].
Qed.

Lemma odd_length_names_never_looked_up_witness :
  py "GOOGLE" ∉ split COMMA (py "IBM,GOOGL").
Proof.
  apply (odd_length_names_never_looked_up (py "IBM,GOOGL") (py "GOOGLE")).
  - reflexivity.
  - repeat constructor; vm_compute; discriminate.
  - vm_compute. lia.
Defined.
